(** * nextjs-typesafe-routing: URL generation, validation dispatch and lookups

    A shallow embedding of the run-time part of the package: the string
    interpolation of [generateUrl] / [getPath], the query-string assembly,
    the validation dispatch around the zod schemas, the route registries,
    the router hooks and the typed pathname.

    Conventions of the embedding.
    - A JavaScript string is the sequence of its UTF-8 bytes ([string]).
      Substring search on well-formed UTF-8 agrees with substring search on
      code points, and the byte view is the one [URLSearchParams] serialises.
    - A JavaScript object used as a record of entries is the list that
      [Object.entries] yields for it, in that order.
    - A plain object used as a registry, read with [obj[key]] and tested
      with [in], keeps its own properties and its prototype (module [Obj]):
      a lookup also finds what the object inherits.
    - [console] output and the module-level registries are explicit state;
      [throw] is an abrupt completion. A React or Next hook that a function
      calls is an argument: the way that call completes in the current
      render. *)

From Stdlib Require Import Ascii ZArith Lia DecimalString.
From stdpp Require Import base option list gmap strings.

Local Open Scope stdpp_scope.
Set Warnings "-register-all,-unused-intro-pattern".

(** ** String.prototype methods used by the package *)

Module Str.

(** [s.startsWith(pat)] *)
Fixpoint startsWith (s pat : string) {struct pat} : bool :=
  match pat with
  | EmptyString => true
  | String a pat' =>
      match s with
      | EmptyString => false
      | String b s' => if Ascii.eqb a b then startsWith s' pat' else false
      end
  end.

(** [s.endsWith(pat)] *)
Fixpoint endsWith (s pat : string) : bool :=
  if String.eqb s pat then true
  else match s with
       | EmptyString => false
       | String _ s' => endsWith s' pat
       end.

(** [s.includes(pat)] *)
Fixpoint includes (s pat : string) : bool :=
  if startsWith s pat then true
  else match s with
       | EmptyString => false
       | String _ s' => includes s' pat
       end.

Fixpoint drop (n : nat) (s : string) : string :=
  match n with
  | O => s
  | S n' => match s with
            | EmptyString => EmptyString
            | String _ s' => drop n' s'
            end
  end.

(** First occurrence of [pat] in [s]: the text before the match and the
    text after it. *)
Fixpoint search (s pat : string) : option (string * string) :=
  if startsWith s pat then Some (EmptyString, drop (String.length pat) s)
  else match s with
       | EmptyString => None
       | String c s' =>
           match search s' pat with
           | Some (before, after) => Some (String c before, after)
           | None => None
           end
       end.

(** ECMAScript GetSubstitution for a string pattern (no captures, no named
    groups): [$$] is a dollar, [$&] the match, [$`] the text before it,
    [$'] the text after it; every other character, a dollar in front of a
    digit or of [<] included, is copied. *)
Fixpoint GetSubstitution (matched before after template : string) : string :=
  match template with
  | EmptyString => EmptyString
  | String c rest =>
      if Ascii.eqb c "$" then
        match rest with
        | EmptyString => String c EmptyString
        | String d rest' =>
            if Ascii.eqb d "$" then
              String "$" (GetSubstitution matched before after rest')
            else if Ascii.eqb d "&" then
              matched +:+ GetSubstitution matched before after rest'
            else if Ascii.eqb d "`" then
              before +:+ GetSubstitution matched before after rest'
            else if Ascii.eqb d "'" then
              after +:+ GetSubstitution matched before after rest'
            else
              String c (String d (GetSubstitution matched before after rest'))
        end
      else String c (GetSubstitution matched before after rest)
  end.

(** [s.replace(pat, replacement)] with a string pattern: only the first
    occurrence is replaced. *)
Definition replace (s pat replacement : string) : string :=
  match search s pat with
  | None => s
  | Some (before, after) =>
      before +:+ GetSubstitution pat before after replacement +:+ after
  end.

(** Number of occurrences of the character [c]. *)
Fixpoint count (c : ascii) (s : string) : nat :=
  match s with
  | EmptyString => 0
  | String d s' => (if Ascii.eqb c d then 1 else 0) + count c s'
  end.

End Str.

(** ** JavaScript values *)

(** A Number is kept as the data [Number::toString] prints: the sign, the
    shortest decimal significand [s] (with [k] digits) and the exponent [n]
    such that the value is [s * 10^(n-k)]. *)
Inductive number :=
| NaN
| Infinity (negative : bool)
| Zero (negative : bool)
| Finite (negative : bool) (s : positive) (n : Z).

Fixpoint zeros (k : nat) : string :=
  match k with
  | O => EmptyString
  | S k' => String "0" (zeros k')
  end.

Definition decimal (p : positive) : string :=
  NilEmpty.string_of_uint (Pos.to_uint p).

(** Number::toString, radix 10, on a finite non-zero magnitude. *)
Definition render (s : positive) (n : Z) : string :=
  let digits := decimal s in
  let k := Z.of_nat (String.length digits) in
  if ((k <=? n) && (n <=? 21))%Z then
    digits +:+ zeros (Z.to_nat (n - k))
  else if ((0 <? n) && (n <=? 21))%Z then
    String.substring 0 (Z.to_nat n) digits +:+ "." +:+
    String.substring (Z.to_nat n) (Z.to_nat (k - n)) digits
  else if ((-6 <? n) && (n <=? 0))%Z then
    "0." +:+ zeros (Z.to_nat (- n)) +:+ digits
  else
    let e := (n - 1)%Z in
    let sign := if (e <? 0)%Z then "-" else "+" in
    let exponent :=
      match Z.abs e with
      | Zpos p => decimal p
      | _ => "0"
      end in
    if (k =? 1)%Z then digits +:+ "e" +:+ sign +:+ exponent
    else String.substring 0 1 digits +:+ "." +:+
         String.substring 1 (Z.to_nat (k - 1)) digits +:+ "e" +:+ sign +:+ exponent.

Definition Number_toString (x : number) : string :=
  match x with
  | NaN => "NaN"
  | Infinity negative => if negative then "-Infinity" else "Infinity"
  | Zero _ => "0"
  | Finite negative s n => if negative then "-" +:+ render s n else render s n
  end.

(** The values the package handles: scalars, [undefined], [null] and plain
    objects (as their entries). *)
Inductive value :=
| VUndefined
| VNull
| VBoolean (b : bool)
| VNumber (x : number)
| VString (s : string)
| VObject (entries : list (string * value)).

(** The entries of a plain object, as [Object.entries] yields them. *)
Definition object := list (string * value).

(** [String(value)] *)
Definition ToString (v : value) : string :=
  match v with
  | VUndefined => "undefined"
  | VNull => "null"
  | VBoolean b => if b then "true" else "false"
  | VNumber x => Number_toString x
  | VString s => s
  | VObject _ => "[object Object]"
  end.

(** [{}] *)
Definition empty_object : value := VObject [].

(** ** URLSearchParams *)

Module URLSearchParams.

(** The list of name-value pairs of a [URLSearchParams] object. *)
Definition t := list (string * string).

Definition append (q : t) (name val : string) : t := q ++ [(name, val)].

Definition hex_digit (n : N) : ascii :=
  if (n <? 10)%N then ascii_of_N (48 + n) else ascii_of_N (55 + n).

(** Bytes the application/x-www-form-urlencoded serialiser leaves alone:
    ASCII letters and digits and the four characters [*-._]. *)
Definition unreserved (c : ascii) : bool :=
  let n := N_of_ascii c in
  ((48 <=? n) && (n <=? 57) || (65 <=? n) && (n <=? 90) ||
   (97 <=? n) && (n <=? 122) ||
   (n =? 42) || (n =? 45) || (n =? 46) || (n =? 95))%N.

(** One byte of the serialisation: a space is a plus sign, any other byte
    outside [unreserved] a percent sign and two upper-case hex digits. *)
Definition encode_byte (c : ascii) : string :=
  if unreserved c then String c EmptyString
  else if Ascii.eqb c " " then "+"
  else let n := N_of_ascii c in
       String "%" (String (hex_digit (n / 16)) (String (hex_digit (n mod 16)) EmptyString)).

Fixpoint encode (s : string) : string :=
  match s with
  | EmptyString => EmptyString
  | String c s' => encode_byte c +:+ encode s'
  end.

Definition encode_pair (p : string * string) : string :=
  encode (fst p) +:+ "=" +:+ encode (snd p).

Fixpoint join (sep : string) (l : list string) : string :=
  match l with
  | [] => EmptyString
  | [x] => x
  | x :: l' => x +:+ sep +:+ join sep l'
  end.

(** [searchParams.toString()] *)
Definition toString (q : t) : string := join "&" (map encode_pair q).

End URLSearchParams.

(** ** The zod schema, an external collaborator *)

Record ZodIssue := { issue_path : list string; issue_message : string }.

Inductive SafeParseReturn :=
| SafeParseSuccess (data : value)
| SafeParseError (error : list ZodIssue).

(** A schema is what it does to an unknown value. [parse] below is zod's:
    [safeParse], throwing the error instead of returning it. *)
Record ZodType := { safeParse : value -> SafeParseReturn }.

(** ** Completions, the console and the registries *)

(** The values the code throws, or hands to the console next to a message:
    an [Error] with its message, a [ZodError] with its issues, and the
    result of [error.flatten()] on a [ZodError] with the given issues
    (zod's object of form and field errors, only ever logged). *)
Inductive exn :=
| Error (message : string)
| ZodError (issues : list ZodIssue)
| FlattenedError (issues : list ZodIssue).

Inductive completion (A : Type) :=
| Normal (a : A)
| Throw (e : exn).
Arguments Normal {A} a.
Arguments Throw {A} e.

Definition parse (schema : ZodType) (v : value) : completion value :=
  match safeParse schema v with
  | SafeParseSuccess data => Normal data
  | SafeParseError error => Throw (ZodError error)
  end.

(** core/types.ts, [RouteDefinition] *)
Record RouteDefinition := {
  path : string;
  params : option ZodType;
  query : option ZodType
}.

(** The [options] argument of the URL generators; both fields are [None]
    when [options] itself is left out. *)
Record Options := {
  opt_params : option object;
  opt_query : option object
}.

Definition no_options : Options := {| opt_params := None; opt_query := None |}.

(** ** Plain objects used as registries *)

Module Obj.

(** What reading a property of a registry object can give: a route
    definition; a member of [Object.prototype] that every plain object
    inherits; [Object.prototype] itself; and, once a route has become the
    prototype of the object, the path and the schemas of that route. *)
Inductive property :=
| PRoute (route : RouteDefinition)
| PPrototypeMember (name : string)
| PObjectPrototype
| PPath (s : string)
| PSchema (schema : ZodType).

(** A plain object ([{}]) whose own properties are route definitions. Its
    prototype is [Object.prototype] ([proto] is [None]) until an assignment
    to [__proto__] makes a route its prototype. *)
Record t := {
  own : gmap string RouteDefinition;
  proto : option RouteDefinition
}.

(** [{}] *)
Definition empty : t := {| own := ∅; proto := None |}.

(** The data properties of [Object.prototype]. *)
Definition prototypeMembers : list string :=
  ["constructor"; "hasOwnProperty"; "isPrototypeOf"; "propertyIsEnumerable";
   "toLocaleString"; "toString"; "valueOf";
   "__defineGetter__"; "__defineSetter__"; "__lookupGetter__"; "__lookupSetter__"].

(** Reading [key] on [Object.prototype]. *)
Definition inherited (key : string) : option property :=
  if existsb (String.eqb key) prototypeMembers then Some (PPrototypeMember key)
  else None.

(** Reading [key] below the own properties: the accessor [__proto__] gives
    the prototype; a route that is the prototype answers for its own
    members; [Object.prototype] ends the chain. *)
Definition fromPrototype (o : t) (key : string) : option property :=
  if String.eqb key "__proto__" then
    Some match proto o with
         | Some route => PRoute route
         | None => PObjectPrototype
         end
  else
    match proto o with
    | Some route =>
        if String.eqb key "path" then Some (PPath (path route))
        else if String.eqb key "params" then
          match params route with
          | Some schema => Some (PSchema schema)
          | None => inherited key
          end
        else if String.eqb key "query" then
          match query route with
          | Some schema => Some (PSchema schema)
          | None => inherited key
          end
        else inherited key
    | None => inherited key
    end.

(** [o[key]]; [None] is [undefined]. *)
Definition get (o : t) (key : string) : option property :=
  match own o !! key with
  | Some route => Some (PRoute route)
  | None => fromPrototype o key
  end.

(** [key in o]: own or inherited. No property of these objects holds
    [undefined], so the property is there exactly when reading it gives a
    value. *)
Definition has (o : t) (key : string) : bool :=
  match get o key with
  | Some _ => true
  | None => false
  end.

(** [o[key] = route]. Without an own property of that name, assigning to
    [__proto__] runs the setter of [Object.prototype] and replaces the
    prototype; every other assignment writes an own property. *)
Definition set (o : t) (key : string) (route : RouteDefinition) : t :=
  if String.eqb key "__proto__" then
    match own o !! key with
    | Some _ => {| own := <[key := route]> (own o); proto := proto o |}
    | None => {| own := own o; proto := Some route |}
    end
  else {| own := <[key := route]> (own o); proto := proto o |}.

(** Truthiness of what was read: everything but the empty string. *)
Definition truthy (p : property) : bool :=
  match p with
  | PPath EmptyString => false
  | _ => true
  end.

End Obj.

Inductive level := warn | error.

(** One call of [console.warn] or [console.error]: the message and, when a
    second argument is passed, that argument. *)
Record LogEntry := {
  log_level : level;
  log_message : string;
  log_detail : option exn
}.

(** What the code can read and write besides its arguments: the console and
    the two module-level registries of core/registry.ts. *)
Record World := {
  console : list LogEntry;
  routeRegistry : Obj.t;
  pathRegistry : Obj.t
}.

Definition M (A : Type) : Type := World -> completion A * World.

Definition ret {A} (a : A) : M A := fun w => (Normal a, w).

Definition bind {A B} (m : M A) (k : A -> M B) : M B :=
  fun w => match m w with
           | (Normal a, w') => k a w'
           | (Throw e, w') => (Throw e, w')
           end.

Definition throw {A} (e : exn) : M A := fun w => (Throw e, w).

Definition lift {A} (c : completion A) : M A := fun w => (c, w).

(** [try { body } catch (error) { handler }] *)
Definition try_catch {A} (body : M A) (handler : exn -> M A) : M A :=
  fun w => match body w with
           | (Normal a, w') => (Normal a, w')
           | (Throw e, w') => handler e w'
           end.

Definition log (l : level) (message : string) (detail : option exn) : M unit :=
  fun w => (Normal tt,
            {| console := console w ++
                 [{| log_level := l; log_message := message; log_detail := detail |}];
               routeRegistry := routeRegistry w;
               pathRegistry := pathRegistry w |}).

Definition console_warn := log warn.
Definition console_error := log error.

Notation "x <- m ;; k" := (bind m (fun x => k))
  (at level 100, m at next level, right associativity).
Notation "m ;;; k" := (bind m (fun _ => k))
  (at level 100, right associativity).

Definition when (b : bool) (m : M unit) : M unit := if b then m else ret tt.

(** ** The two blocks every URL generator repeats *)

(** [Object.entries(params).reduce((acc, [key, value]) =>
      acc.replace(`:${key}`, String(value)), path)] *)
Definition replaceParams (path : string) (entries : object) : string :=
  fold_left (fun acc entry => Str.replace acc (":" +:+ fst entry) (ToString (snd entry)))
            entries path.

(** The [forEach] over [Object.entries(query)]: defined values are appended
    after [String()]. *)
Definition appendDefined (searchParams : URLSearchParams.t) (entry : string * value)
  : URLSearchParams.t :=
  match snd entry with
  | VUndefined => searchParams
  | v => URLSearchParams.append searchParams (fst entry) (ToString v)
  end.

Definition collectQuery (entries : object) : URLSearchParams.t :=
  fold_left appendDefined entries [].

(** [if (query) { ...; if (queryString) url = `${url}?${queryString}` }] *)
Definition addQuery (url : string) (q : option object) : string :=
  match q with
  | None => url
  | Some entries =>
      let queryString := URLSearchParams.toString (collectQuery entries) in
      match queryString with
      | EmptyString => url
      | _ => url +:+ "?" +:+ queryString
      end
  end.

(** Truthiness of an optional object: an object is truthy, [undefined] is
    not. *)
Definition truthy {A} (o : option A) : bool :=
  match o with
  | Some _ => true
  | None => false
  end.

Definition dquote : string := String (ascii_of_nat 34) EmptyString.

(** ** core/registry.ts *)

Module Registry.

(** [routeRegistry[key] = route; pathRegistry[route.path] = route] *)
Definition register (w : World) (entry : string * RouteDefinition) : World :=
  {| console := console w;
     routeRegistry := Obj.set (routeRegistry w) (fst entry) (snd entry);
     pathRegistry := Obj.set (pathRegistry w) (path (snd entry)) (snd entry) |}.

Definition createRouteRegistry (routes : list (string * RouteDefinition))
  : M (list (string * RouteDefinition)) :=
  fun w => (Normal routes, fold_left register routes w).

(** [pathRegistry[path]]: typed as a route or undefined, it is whatever
    the property read gives. *)
Definition getRouteByPath (p : string) : M (option Obj.property) :=
  fun w => (Normal (Obj.get (pathRegistry w) p), w).

(** [routeRegistry[name]] *)
Definition getRouteByName (name : string) : M (option Obj.property) :=
  fun w => (Normal (Obj.get (routeRegistry w) name), w).

Definition hasParams (route : RouteDefinition + string) : bool :=
  let p := match route with
           | inr s => s
           | inl r => path r
           end in
  Str.includes p "/:".

Definition validateParams (route : RouteDefinition) (candidate : value)
  : completion value :=
  match params route with
  | None =>
      if hasParams (inl route) then
        Throw (Error ("Route " +:+ path route +:+
                      " has parameters but no validation schema"))
      else Normal empty_object
  | Some schema => parse schema candidate
  end.

Definition validateQuery (route : RouteDefinition) (candidate : value)
  : completion value :=
  match query route with
  | None => Normal empty_object
  | Some schema => parse schema candidate
  end.

Definition generateUrl (routeOrPath : RouteDefinition + string) (options : Options)
  : M string :=
  let given_params := opt_params options in
  let given_query := opt_query options in
  p <- match routeOrPath with
       | inr s => ret s
       | inl route =>
           let p := path route in
           match params route, given_params with
           | Some _, Some ps =>
               try_catch
                 (_ <- lift (validateParams route (VObject ps)) ;; ret tt)
                 (fun e =>
                    console_error ("Invalid params for route " +:+ p +:+ ":") (Some e) ;;;
                    throw e)
           | _, _ => ret tt
           end ;;;
           match query route, given_query with
           | Some _, Some qs =>
               try_catch
                 (_ <- lift (validateQuery route (VObject qs)) ;; ret tt)
                 (fun e =>
                    console_error ("Invalid query for route " +:+ p +:+ ":") (Some e) ;;;
                    throw e)
           | _, _ => ret tt
           end ;;;
           ret p
       end ;;
  p <- match given_params with
       | Some ps => ret (replaceParams p ps)
       | None =>
           when (hasParams (inr p))
                (console_warn ("Route " +:+ p +:+ " has parameters but none were provided")
                              None) ;;;
           ret p
       end ;;
  ret (addQuery p given_query).

End Registry.

(** ** core/route-builder.ts, as first released *)

Module RouteBuilder.

Definition defineRoute (p : string) (options : option (option ZodType * option ZodType))
  : RouteDefinition :=
  match options with
  | None => {| path := p; params := None; query := None |}
  | Some (ps, q) => {| path := p; params := ps; query := q |}
  end.

Definition generateUrl (route : RouteDefinition) (options : Options) : string :=
  let url := path route in
  let url := match opt_params options with
             | Some ps => replaceParams url ps
             | None => url
             end in
  addQuery url (opt_query options).

Definition validateRouteParams (route : RouteDefinition) (candidate : value)
  : completion value :=
  match params route with
  | None => Throw (Error ("Route " +:+ path route +:+
                          " does not have params schema defined"))
  | Some schema => parse schema candidate
  end.

Definition validateRouteQuery (route : RouteDefinition) (candidate : value)
  : completion value :=
  match query route with
  | None => Throw (Error ("Route " +:+ path route +:+
                          " does not have query schema defined"))
  | Some schema => parse schema candidate
  end.

End RouteBuilder.

(** [array.join(separator)] on an array of strings. *)
Definition Array_join (l : list string) (separator : string) : string :=
  URLSearchParams.join separator l.

(** [array.includes(x)] on an array of strings. *)
Definition Array_includes (l : list string) (x : string) : bool :=
  existsb (String.eqb x) l.

(** What [defineRoute] reads of the params schema it is given: the schema,
    and the keys of its [_def.shape]; [shape_keys] is [None] when
    [_def?.shape] is undefined. *)
Record ParamsSchema := {
  schema_of : ZodType;
  shape_keys : option (list string)
}.

(** ** core/route-builder.ts, the revision on top of the registry *)

Module RouteBuilderRegistry.

(** [path.split('/')] *)
Fixpoint split_slash (s : string) : list string :=
  match s with
  | EmptyString => [EmptyString]
  | String c s' =>
      if Ascii.eqb c "/" then EmptyString :: split_slash s'
      else match split_slash s' with
           | [] => [String c EmptyString]
           | seg :: segs => String c seg :: segs
           end
  end.

(** [defineRoute]: the names the path declares, [segment.slice(1)] of each
    segment that starts with a colon. *)
Definition expectedParams (p : string) : list string :=
  omap (fun segment =>
          if Str.startsWith segment ":" then Some (Str.drop 1 segment) else None)
       (split_slash p).

(** [defineRoute] of the revision: the route is always returned; the
    console is told when a path with parameters comes without a schema, and
    when the keys of the schema and the names in the path differ. *)
Definition defineRoute (p : string) (given_params : option ParamsSchema)
           (given_query : option ZodType) : M RouteDefinition :=
  when (Registry.hasParams (inr p) && negb (truthy given_params))
       (console_warn ("Route " +:+ p +:+
                      " has parameters but no validation schema was provided.") None) ;;;
  match given_params with
  | Some schema =>
      let expected := expectedParams p in
      match shape_keys schema with
      | Some actualParams =>
          let missingParams :=
            List.filter (fun param => negb (Array_includes actualParams param)) expected in
          when (negb (Nat.eqb (length missingParams) 0))
               (console_error ("Route " +:+ p +:+
                               " is missing parameter validations for: " +:+
                               Array_join missingParams ", ") None) ;;;
          let extraParams :=
            List.filter (fun param => negb (Array_includes expected param)) actualParams in
          when (negb (Nat.eqb (length extraParams) 0))
               (console_warn ("Route " +:+ p +:+
                              " has extra parameter validations that don't appear in the path: " +:+
                              Array_join extraParams ", ") None)
      | None => ret tt
      end
  | None => ret tt
  end ;;;
  ret {| path := p;
         params := match given_params with
                   | Some schema => Some (schema_of schema)
                   | None => None
                   end;
         query := given_query |}.

(** The deprecated [generateUrl]: validation is not wrapped in a [try]. *)
Definition generateUrl (route : RouteDefinition) (options : Options) : M string :=
  let given_params := opt_params options in
  let given_query := opt_query options in
  match params route, given_params with
  | Some _, Some ps => _ <- lift (Registry.validateParams route (VObject ps)) ;; ret tt
  | _, _ =>
      when (Registry.hasParams (inl route) && negb (truthy given_params))
           (console_warn ("Route " +:+ path route +:+
                          " has parameters but none were provided.") None)
  end ;;;
  match query route, given_query with
  | Some _, Some qs => _ <- lift (Registry.validateQuery route (VObject qs)) ;; ret tt
  | _, _ => ret tt
  end ;;;
  let url := path route in
  let url := match given_params with
             | Some ps => replaceParams url ps
             | None => url
             end in
  ret (addQuery url given_query).

Definition validateRouteParams (route : RouteDefinition) (candidate : value)
  : completion value :=
  Registry.validateParams route candidate.

Definition validateRouteQuery (route : RouteDefinition) (candidate : value)
  : completion value :=
  Registry.validateQuery route candidate.

End RouteBuilderRegistry.

(** ** components/link.tsx, the revision that accepts string paths *)

Module LinkComponent.

(** The [href] the component hands to [NextLink]. *)
Definition Link (href : RouteDefinition + string)
           (given_params given_query : option object) : M string :=
  match href with
  | inr href =>
      registeredRoute <- Registry.getRouteByPath href ;;
      match registeredRoute with
      | Some (Obj.PRoute registeredRoute) =>
          match params registeredRoute, given_params with
          | Some _, Some ps =>
              try_catch
                (_ <- lift (Registry.validateParams registeredRoute (VObject ps)) ;; ret tt)
                (fun e =>
                   console_error ("Invalid params for route " +:+ href +:+ ":") (Some e))
          | _, _ =>
              when (Registry.hasParams (inr href) && negb (truthy given_params))
                   (console_warn ("Route " +:+ href +:+
                                  " has parameters but none were provided.") None)
          end ;;;
          match query registeredRoute, given_query with
          | Some _, Some qs =>
              try_catch
                (_ <- lift (Registry.validateQuery registeredRoute (VObject qs)) ;; ret tt)
                (fun e =>
                   console_error ("Invalid query for route " +:+ href +:+ ":") (Some e))
          | _, _ => ret tt
          end
      | Some member =>
          (* what was read is not a route: its [params] and [query] are
             [undefined], so when it is truthy only the inner [else if]
             can fire, and when it is falsy the outer one *)
          if Obj.truthy member then
            when (Registry.hasParams (inr href) && negb (truthy given_params))
                 (console_warn ("Route " +:+ href +:+
                                " has parameters but none were provided.") None)
          else
            when (Registry.hasParams (inr href) && negb (truthy given_params))
                 (console_warn ("Route " +:+ href +:+
                                " has parameters but none were provided.") None)
      | None =>
          when (Registry.hasParams (inr href) && negb (truthy given_params))
               (console_warn ("Route " +:+ href +:+
                              " has parameters but none were provided.") None)
      end ;;;
      let url := match given_params with
                 | Some ps => replaceParams href ps
                 | None => href
                 end in
      ret (addQuery url given_query)
  | inl route =>
      Registry.generateUrl (inl route)
        {| opt_params := given_params; opt_query := given_query |}
  end.

End LinkComponent.

(** ** core/route-provider.tsx *)

Module RouteProvider.

(** [useRoutes]; [context] is the value [useContext(RouteContext)] gives,
    [None] outside a provider. *)
Definition useRoutes (context : option Obj.t) : completion Obj.t :=
  match context with
  | None => Throw (Error "useRoutes must be used within a RouteProvider")
  | Some routes => Normal routes
  end.

(** [useRoute]: the test is [routeName in routes], which also holds for an
    inherited name; what is returned is [routes[routeName]] ([None] being
    [undefined]). *)
Definition useRoute (context : option Obj.t) (routeName : string)
  : completion (option Obj.property) :=
  match useRoutes context with
  | Throw e => Throw e
  | Normal routes =>
      if negb (Obj.has routes routeName) then
        Throw (Error ("Route " +:+ dquote +:+ routeName +:+ dquote +:+ " not found"))
      else Normal (Obj.get routes routeName)
  end.

End RouteProvider.

(** ** types.ts and routerParser.ts: the router instance *)

Module RouteConfig.
Record t := {
  path : string;
  paramsSchema : option ZodType;
  searchSchema : option ZodType;
  meta : option value
}.
End RouteConfig.

Module RouteNode.
Record t := {
  id : string;
  path : string;
  paramsSchema : option ZodType;
  searchSchema : option ZodType;
  meta : option value;
  original : RouteConfig.t
}.
End RouteNode.


Module RouterParser.

Definition buildRouteTree (routes : list RouteConfig.t) : list RouteNode.t :=
  map (fun route =>
         {| RouteNode.id := RouteConfig.path route;
            RouteNode.path := RouteConfig.path route;
            RouteNode.paramsSchema := RouteConfig.paramsSchema route;
            RouteNode.searchSchema := RouteConfig.searchSchema route;
            RouteNode.meta := RouteConfig.meta route;
            RouteNode.original := route |})
      routes.

Section createRouter.

Variable routesConfig : list RouteConfig.t.

Definition routeNodes : list RouteNode.t := buildRouteTree routesConfig.

Definition getPath (p : string) (given_params search : option object) : string :=
  let populatedPath := p in
  let populatedPath := match given_params with
                       | Some ps => replaceParams populatedPath ps
                       | None => populatedPath
                       end in
  addQuery populatedPath search.

Definition getRoute (p : string) : option RouteNode.t :=
  find (fun r => String.eqb (RouteNode.path r) p) routeNodes.



(** createDynamicRouter *)
Definition getDynamicPath (p : string) (given_params : option object) : string :=
  match given_params with
  | Some ps => replaceParams p ps
  | None => p
  end.


End createRouter.

End RouterParser.

(** ** hooks/use-pathname.ts *)

Module UsePathname.

(** [pathname] is what [next/navigation]'s [usePathname] returned, [None]
    standing for [null]; a template literal renders [null] as the text
    "null". *)
Definition equals (pathname : option string) (route : RouteDefinition) : bool :=
  match pathname with
  | Some p => String.eqb p (path route)
  | None => false
  end.

Definition startsWith (pathname : option string) (route : RouteDefinition) : bool :=
  let routePath :=
    if Str.endsWith (path route) "/" then path route else path route +:+ "/" in
  let currentPath :=
    match pathname with
    | Some p => if Str.endsWith p "/" then p else p +:+ "/"
    | None => "null" +:+ "/"
    end in
  Str.startsWith currentPath routePath || false.

Definition includes (pathname : option string) (route : RouteDefinition) : bool :=
  match pathname with
  | Some p => Str.includes p (path route) || false
  | None => false
  end.

End UsePathname.

(** ** Vocabulary of the statements *)

(** A path with one slash appended unless it already ends with one. *)
Definition withTrailingSlash (s : string) : string :=
  if Str.endsWith s "/" then s else s +:+ "/".

(** The template a generator starts from. *)
Definition template (routeOrPath : RouteDefinition + string) : string :=
  match routeOrPath with
  | inl route => path route
  | inr s => s
  end.

Definition isDefined (v : value) : bool :=
  match v with
  | VUndefined => false
  | _ => true
  end.

(** The name-value pairs a query object contributes: its defined entries,
    in order, each value after [String()]. *)
Definition present (entries : object) : list (string * string) :=
  map (fun e => (fst e, ToString (snd e)))
      (List.filter (fun e => isDefined (snd e)) entries).

Definition presentOf (q : option object) : list (string * string) :=
  match q with
  | Some entries => present entries
  | None => []
  end.

(** The world after one more console call. *)
Definition logged (w : World) (l : level) (message : string) (detail : option exn)
  : World :=
  {| console := console w ++
       [{| log_level := l; log_message := message; log_detail := detail |}];
     routeRegistry := routeRegistry w;
     pathRegistry := pathRegistry w |}.

(** Does the schema of a route, if it has one, accept the supplied object?
    Nothing is validated when either is missing. *)
Definition accepted (schema : option ZodType) (given : option object) : bool :=
  match schema, given with
  | Some s, Some entries =>
      match safeParse s (VObject entries) with
      | SafeParseSuccess _ => true
      | SafeParseError _ => false
      end
  | _, _ => true
  end.

(** Every character of [s] satisfies [f]. *)
Fixpoint allChars (f : ascii -> bool) (s : string) : bool :=
  match s with
  | EmptyString => true
  | String c s' => f c && allChars f s'
  end.

(** The characters a serialised query string is made of: the unreserved
    ones, the percent and plus signs of the encoding, and the two
    separators. *)
Definition queryChar (c : ascii) : bool :=
  URLSearchParams.unreserved c || Ascii.eqb c "%" || Ascii.eqb c "+" ||
  Ascii.eqb c "=" || Ascii.eqb c "&".

(** The query string the specification describes for a list of name-value
    pairs. *)
Definition serialise (pairs : list (string * string)) : string :=
  URLSearchParams.join "&"
    (map (fun kv => URLSearchParams.encode (fst kv) +:+ "=" +:+
                    URLSearchParams.encode (snd kv)) pairs).

(** The path after the parameters were substituted. *)
Definition populated (p : string) (given_params : option object) : string :=
  match given_params with
  | Some ps => replaceParams p ps
  | None => p
  end.

(** ** Fixtures: the routes of the README *)

Definition is_digit (c : ascii) : bool :=
  let n := N_of_ascii c in ((48 <=? n) && (n <=? 57))%N.

Fixpoint all_digits (s : string) : bool :=
  match s with
  | EmptyString => true
  | String c s' => is_digit c && all_digits s'
  end.

Fixpoint lookup_entry (key : string) (entries : object) : option value :=
  match entries with
  | [] => None
  | (k, v) :: rest => if String.eqb k key then Some v else lookup_entry key rest
  end.

(** [z.object({ id: z.string().regex(/^\d+$/) })] *)
Definition numericIdSchema : ZodType :=
  {| safeParse := fun v =>
       match v with
       | VObject entries =>
           match lookup_entry "id" entries with
           | Some (VString s) =>
               match s with
               | EmptyString =>
                   SafeParseError [{| issue_path := ["id"]; issue_message := "Invalid" |}]
               | _ =>
                   if all_digits s then SafeParseSuccess (VObject [("id", VString s)])
                   else SafeParseError
                          [{| issue_path := ["id"]; issue_message := "Invalid" |}]
               end
           | Some _ =>
               SafeParseError
                 [{| issue_path := ["id"]; issue_message := "Expected string" |}]
           | None =>
               SafeParseError [{| issue_path := ["id"]; issue_message := "Required" |}]
           end
       | _ => SafeParseError [{| issue_path := []; issue_message := "Expected object" |}]
       end |}.

Definition aboutRoute : RouteDefinition :=
  {| path := "/about"; params := None; query := None |}.

Definition userRoute : RouteDefinition :=
  {| path := "/user/:id"; params := Some numericIdSchema; query := None |}.

Definition blogRoute : RouteDefinition :=
  {| path := "/blog"; params := None; query := None |}.


Definition freshWorld : World :=
  {| console := []; routeRegistry := Obj.empty; pathRegistry := Obj.empty |}.



(** The world after [createRouteRegistry({ about, user })]. *)
Definition registeredWorld : World :=
  snd (Registry.createRouteRegistry [("about", aboutRoute); ("user", userRoute)]
         freshWorld).

(** ** Paths assembled from segments *)

(** A path as [defineRoute] reads it: slash-separated segments, a segment
    that starts with a colon being the token of a parameter. *)
Inductive segment :=
| Literal (text : string)
| Token (name : string).

Definition renderSegment (seg : segment) : string :=
  match seg with
  | Literal text => text
  | Token name => ":" +:+ name
  end.

Fixpoint renderPath (segs : list segment) : string :=
  match segs with
  | [] => ""
  | seg :: rest => "/" +:+ renderSegment seg +:+ renderPath rest
  end.

Definition tokens (segs : list segment) : list string :=
  omap (fun seg => match seg with
                   | Token name => Some name
                   | Literal _ => None
                   end) segs.

(** The character [c] does not occur in [s]. *)
Definition free (c : ascii) (s : string) : bool := Nat.eqb (Str.count c s) 0.

Definition segmentText (seg : segment) : string :=
  match seg with
  | Literal text => text
  | Token name => name
  end.

Fixpoint distinct (l : list string) : bool :=
  match l with
  | [] => true
  | x :: rest => negb (Array_includes rest x) && distinct rest
  end.

(** No colon inside a segment, and no parameter name twice. *)
Definition templateOk (segs : list segment) : bool :=
  forallb (fun seg => free ":" (segmentText seg)) segs && distinct (tokens segs).

(** A key that can only meet its own token: it has no slash, and it is not
    the beginning of another parameter's name. *)
Definition keyOk (segs : list segment) (key : string) : bool :=
  free "/" key &&
  forallb (fun name => implb (Str.startsWith name key) (String.eqb name key))
          (tokens segs).

(** A value that is inserted as it stands: no replacement pattern, and no
    colon that a later key could meet. *)
Definition valueOk (v : string) : bool := free ":" v && free "$" v.

Definition entryOk (segs : list segment) (entry : string * value) : bool :=
  keyOk segs (fst entry) && valueOk (ToString (snd entry)).

(** The segment after substitution: a token takes the value of the first
    entry under its name. *)
Definition fill (entries : object) (seg : segment) : segment :=
  match seg with
  | Literal text => Literal text
  | Token name =>
      match lookup_entry name entries with
      | Some v => Literal (ToString v)
      | None => Token name
      end
  end.

Definition covered (entries : object) (segs : list segment) : bool :=
  forallb (fun name => truthy (lookup_entry name entries)) (tokens segs).

(** The first token named [key] becomes the text [v]. *)
Fixpoint substFirst (key v : string) (segs : list segment) : list segment :=
  match segs with
  | [] => []
  | Literal text :: rest => Literal text :: substFirst key v rest
  | Token name :: rest =>
      if String.eqb name key then Literal v :: rest
      else Token name :: substFirst key v rest
  end.

(** ** Reading a serialised query back *)

Definition hex_value (c : ascii) : N :=
  let n := N_of_ascii c in
  if (n <? 58)%N then (n - 48)%N else (n - 55)%N.

(** The byte at the head of an encoded string, and what follows it. *)
Definition decode_head (s : string) : option (ascii * string) :=
  match s with
  | EmptyString => None
  | String c rest =>
      if Ascii.eqb c "+" then Some (" "%char, rest)
      else if Ascii.eqb c "%" then
        match rest with
        | String h (String l rest') =>
            Some (ascii_of_N (16 * hex_value h + hex_value l), rest')
        | _ => None
        end
      else Some (c, rest)
  end.

(** The characters of an encoded name or value. *)
Definition encodedChar (c : ascii) : bool :=
  URLSearchParams.unreserved c || Ascii.eqb c "%" || Ascii.eqb c "+".

(** The sixteen digits of a percent-escape: [0-9] and [A-F]. *)
Definition upperHex (c : ascii) : bool :=
  let n := N_of_ascii c in
  ((48 <=? n) && (n <=? 57) || (65 <=? n) && (n <=? 70))%N.

(** ** Registrations *)

(** A key that no registry object answers to by inheritance: not a member
    of [Object.prototype], not [__proto__], and not the name of a field of a
    route definition, which the object inherits once a route has become its
    prototype. *)
Definition ordinaryKey (key : string) : bool :=
  negb (existsb (String.eqb key)
          ("__proto__" :: "path" :: "params" :: "query" :: Obj.prototypeMembers)).

(** The route that the last entry of [routes] with the given name, or with
    the given path, carries. *)
Definition lastNamed (name : string) (routes : list (string * RouteDefinition))
  : option RouteDefinition :=
  match find (fun entry => String.eqb (fst entry) name) (rev routes) with
  | Some entry => Some (snd entry)
  | None => None
  end.

Definition lastAtPath (p : string) (routes : list (string * RouteDefinition))
  : option RouteDefinition :=
  match find (fun entry => String.eqb (path (snd entry)) p) (rev routes) with
  | Some entry => Some (snd entry)
  | None => None
  end.

(** * Properties *)

(** ** Strings *)

Lemma append_nil_l (s : string) : "" +:+ s = s.
Proof. reflexivity. Qed.

Lemma append_cons (c : ascii) (s t : string) :
  String c s +:+ t = String c (s +:+ t).
Proof. reflexivity. Qed.

Ltac norm_append := rewrite ?append_cons, ?append_nil_l in *.

Lemma append_nil_r (s : string) : s +:+ "" = s.
Proof. induction s as [|c s IH]; norm_append; [reflexivity | now f_equal]. Qed.

Lemma append_assoc (a b c : string) : (a +:+ b) +:+ c = a +:+ (b +:+ c).
Proof. induction a as [|x a IH]; norm_append; [reflexivity | now f_equal]. Qed.

Lemma append_inv_head (a b c : string) : a +:+ b = a +:+ c -> b = c.
Proof.
  induction a as [|x a IH]; norm_append; intros H; [assumption|].
  injection H as H. auto.
Qed.

Lemma snoc_cases (s : string) :
  s = "" \/ exists s' c, s = s' +:+ String c "".
Proof.
  induction s as [|x s IH]; [now left | right].
  destruct IH as [-> | (s' & c & ->)].
  - exists "", x. reflexivity.
  - exists (String x s'), c. reflexivity.
Qed.

Lemma snoc_inj (a b : string) (c d : ascii) :
  a +:+ String c "" = b +:+ String d "" -> a = b /\ c = d.
Proof.
  revert b. induction a as [|x a IH]; intros [|y b]; norm_append; intros H.
  - injection H as ->. now split.
  - injection H as -> H. destruct b; discriminate.
  - injection H as -> H. destruct a; discriminate.
  - injection H as -> H. apply IH in H as [-> ->]. now split.
Qed.

Lemma startsWith_spec (s pat : string) :
  Str.startsWith s pat = true <-> exists t, s = pat +:+ t.
Proof.
  revert s. induction pat as [|a pat IH]; intros s; simpl.
  - split; [intros _; now exists s | reflexivity].
  - destruct s as [|b s].
    + split; [discriminate | intros [t H]; discriminate].
    + destruct (Ascii.eqb_spec a b) as [-> | Hne].
      * rewrite IH. split; intros [t H]; exists t.
        -- now rewrite H.
        -- norm_append. now injection H.
      * split; [discriminate | intros [t H]; norm_append; injection H; congruence].
Qed.

Lemma endsWith_unfold (s pat : string) :
  Str.endsWith s pat =
  if String.eqb s pat then true
  else match s with
       | EmptyString => false
       | String _ s' => Str.endsWith s' pat
       end.
Proof. destruct s; reflexivity. Qed.

Lemma endsWith_spec (s pat : string) :
  Str.endsWith s pat = true <-> exists t, s = t +:+ pat.
Proof.
  induction s as [|c s IH]; rewrite endsWith_unfold.
  - destruct (String.eqb_spec "" pat) as [<- | Hne].
    + split; [intros _; now exists "" | reflexivity].
    + split; [discriminate | intros [[|? ?] H]; norm_append; congruence].
  - destruct (String.eqb_spec (String c s) pat) as [<- | Hne].
    + split; [intros _; now exists "" | reflexivity].
    + rewrite IH. split.
      * intros [t ->]. now exists (String c t).
      * intros [[|x t] H]; norm_append; [congruence|].
        injection H as -> ->. now exists t.
Qed.

Lemma withTrailingSlash_snoc (s : string) :
  exists stem, withTrailingSlash s = stem +:+ "/".
Proof.
  unfold withTrailingSlash. destruct (Str.endsWith s "/") eqn:E.
  - now apply endsWith_spec in E.
  - now exists s.
Qed.

(** ** The typed pathname *)

Lemma startsWith_normalised (pathname : string) (route : RouteDefinition) :
  UsePathname.startsWith (Some pathname) route =
  Str.startsWith (withTrailingSlash pathname) (withTrailingSlash (path route)).
Proof. unfold UsePathname.startsWith, withTrailingSlash. apply orb_false_r. Qed.

(** C10. The typed pathname's [startsWith] compares the pathname and the
    route's path after giving both a trailing slash, so a match always ends
    on a segment boundary: it holds exactly when the pathname is the route's
    path (trailing slash apart) or continues it with a slash. The pathname
    /blogger does not start with the route /blog; /blog and /blog/post do. *)
Theorem startsWith_whole_segments (pathname : string) (route : RouteDefinition) :
  UsePathname.startsWith (Some pathname) route =
    Str.startsWith (withTrailingSlash pathname) (withTrailingSlash (path route))
  /\ (UsePathname.startsWith (Some pathname) route = true <->
      exists stem, withTrailingSlash (path route) = stem +:+ "/" /\
        ((pathname = stem /\ Str.endsWith pathname "/" = false) \/
         exists rest, pathname = stem +:+ "/" +:+ rest))
  /\ UsePathname.startsWith (Some "/blogger") blogRoute = false
  /\ UsePathname.startsWith (Some "/blog") blogRoute = true
  /\ UsePathname.startsWith (Some "/blog/post") blogRoute = true.
Proof.
  split; [apply startsWith_normalised|].
  split; [|repeat split; reflexivity].
  rewrite startsWith_normalised, startsWith_spec.
  destruct (withTrailingSlash_snoc (path route)) as [stem Hstem].
  rewrite Hstem. split.
  - intros [t Ht]. exists stem. split; [reflexivity|].
    unfold withTrailingSlash in Ht.
    destruct (Str.endsWith pathname "/") eqn:E.
    + right. exists t. now rewrite Ht, append_assoc.
    + destruct (snoc_cases t) as [-> | (t' & c & ->)].
      * rewrite append_nil_r in Ht. apply snoc_inj in Ht as [-> _]. now left.
      * rewrite <- append_assoc in Ht. apply snoc_inj in Ht as [-> _].
        right. exists t'. now rewrite append_assoc.
  - intros (stem' & Heq & Hcase).
    apply snoc_inj in Heq as [<- _].
    unfold withTrailingSlash.
    destruct Hcase as [[-> E] | [rest ->]].
    + rewrite E. exists "". now rewrite append_nil_r.
    + destruct (Str.endsWith (stem +:+ "/" +:+ rest) "/").
      * exists rest. now rewrite append_assoc.
      * exists (rest +:+ "/"). now rewrite !append_assoc.
Qed.

(** ** Query-string assembly *)

Lemma count_append (c : ascii) (a b : string) :
  Str.count c (a +:+ b) = Str.count c a + Str.count c b.
Proof.
  induction a as [|x a IH]; norm_append; simpl; [reflexivity|].
  rewrite IH. lia.
Qed.

Lemma allChars_append (f : ascii -> bool) (a b : string) :
  allChars f (a +:+ b) = allChars f a && allChars f b.
Proof.
  induction a as [|x a IH]; norm_append; simpl; [reflexivity|].
  rewrite IH. now rewrite andb_assoc.
Qed.

Lemma allChars_count (f : ascii -> bool) (c : ascii) (s : string) :
  allChars f s = true -> f c = false -> Str.count c s = 0.
Proof.
  intros Hs Hc. induction s as [|x s IH]; simpl in *; [reflexivity|].
  apply andb_prop in Hs as [Hx Hs].
  destruct (Ascii.eqb_spec c x) as [-> | _]; [congruence|].
  now rewrite IH.
Qed.

Lemma encode_byte_queryChar (c : ascii) :
  allChars queryChar (URLSearchParams.encode_byte c) = true.
Proof. destruct c as [[] [] [] [] [] [] [] []]; vm_compute; reflexivity. Qed.

Lemma encode_queryChar (s : string) :
  allChars queryChar (URLSearchParams.encode s) = true.
Proof.
  induction s as [|c s IH]; simpl; [reflexivity|].
  now rewrite allChars_append, encode_byte_queryChar, IH.
Qed.

Lemma serialise_queryChar (pairs : list (string * string)) :
  allChars queryChar (serialise pairs) = true.
Proof.
  unfold serialise.
  induction pairs as [|kv pairs IH]; [reflexivity|].
  assert (Hkv : allChars queryChar
                  (URLSearchParams.encode (fst kv) +:+ "=" +:+
                   URLSearchParams.encode (snd kv)) = true).
  { now rewrite !allChars_append, !encode_queryChar. }
  destruct pairs as [|kv' pairs]; [exact Hkv|].
  change (allChars queryChar
            ((URLSearchParams.encode (fst kv) +:+ "=" +:+
              URLSearchParams.encode (snd kv)) +:+ "&" +:+
             URLSearchParams.join "&"
               (map (fun kv => URLSearchParams.encode (fst kv) +:+ "=" +:+
                               URLSearchParams.encode (snd kv)) (kv' :: pairs)))
          = true).
  rewrite allChars_append, Hkv, allChars_append. exact IH.
Qed.

Lemma toString_serialise (q : URLSearchParams.t) :
  URLSearchParams.toString q = serialise q.
Proof. reflexivity. Qed.

Lemma serialise_cons_nonempty (kv : string * string) (pairs : list (string * string)) :
  exists c s, serialise (kv :: pairs) = String c s.
Proof.
  unfold serialise.
  assert (H : forall rest, exists c s,
             (URLSearchParams.encode (fst kv) +:+ "=" +:+ rest) = String c s).
  { intros rest. destruct (URLSearchParams.encode (fst kv)) as [|c s]; norm_append; eauto. }
  destruct pairs as [|kv' pairs]; simpl; [apply H|].
  rewrite !append_assoc. apply H.
Qed.

Lemma fold_appendDefined (entries : object) (acc : URLSearchParams.t) :
  fold_left appendDefined entries acc = acc ++ present entries.
Proof.
  revert acc. induction entries as [|[k v] entries IH]; intros acc; simpl.
  - now rewrite app_nil_r.
  - rewrite IH. unfold appendDefined, present, URLSearchParams.append. simpl.
    destruct v; simpl; try now rewrite <- app_assoc.
    reflexivity.
Qed.

Lemma collectQuery_present (entries : object) : collectQuery entries = present entries.
Proof. unfold collectQuery. now rewrite fold_appendDefined. Qed.

Lemma addQuery_spec (url : string) (q : option object) :
  addQuery url q =
  url +:+ match presentOf q with
          | [] => ""
          | _ => "?" +:+ serialise (presentOf q)
          end.
Proof.
  destruct q as [entries|]; simpl; [|now rewrite append_nil_r].
  rewrite collectQuery_present, toString_serialise.
  destruct (present entries) as [|kv pairs] eqn:E.
  - simpl. now rewrite append_nil_r.
  - destruct (serialise_cons_nonempty kv pairs) as (c & s & ->). reflexivity.
Qed.

Lemma present_all_undefined (entries : object) :
  (forall e, In e entries -> snd e = VUndefined) -> present entries = [].
Proof.
  induction entries as [|[k v] entries IH]; intros H; [reflexivity|].
  pose proof (H (k, v) (or_introl eq_refl)) as Hv. simpl in Hv. subst v.
  unfold present. simpl. apply IH.
  intros e He. apply H. now right.
Qed.

Lemma count_suffix (pairs : list (string * string)) :
  Str.count "?" match pairs with
                | [] => ""
                | _ => "?" +:+ serialise pairs
                end
  = match pairs with
    | [] => 0
    | _ => 1
    end.
Proof.
  destruct pairs as [|kv pairs]; [reflexivity|].
  rewrite count_append.
  now rewrite (allChars_count queryChar "?" _ (serialise_queryChar (kv :: pairs))).
Qed.

(** ** Generation without parameter values *)

Lemma addQuery_startsWith (url : string) (q : option object) :
  Str.startsWith (addQuery url q) url = true.
Proof. rewrite addQuery_spec. apply startsWith_spec. eauto. Qed.

Lemma validateQuery_accepted (route : RouteDefinition) (qs : object) :
  accepted (query route) (Some qs) = true ->
  exists data, Registry.validateQuery route (VObject qs) = Normal data.
Proof.
  unfold accepted, Registry.validateQuery, parse.
  destruct (query route) as [schema|]; [|eauto].
  destruct (safeParse schema (VObject qs)); [eauto | discriminate].
Qed.

(** C5. For a route, or a bare path, that has dynamic segments (the
    package's own test: the path contains a slash followed by a colon),
    generation without parameter values does not fail: one warning is
    written to the console and the template comes back with its tokens
    untouched, followed by the query string when a query is supplied that
    the route's query schema, if any, accepts. *)
Theorem missing_params_warn_and_proceed
    (route : RouteDefinition) (p : string) (q : option object) (w : World) :
  Registry.hasParams (inl route) = true ->
  Registry.hasParams (inr p) = true ->
  accepted (query route) q = true ->
  Registry.generateUrl (inl route) {| opt_params := None; opt_query := q |} w
  = (Normal (addQuery (path route) q),
     logged w warn
       ("Route " +:+ path route +:+ " has parameters but none were provided") None)
  /\ Registry.generateUrl (inr p) {| opt_params := None; opt_query := q |} w
     = (Normal (addQuery p q),
        logged w warn ("Route " +:+ p +:+ " has parameters but none were provided") None)
  /\ RouteBuilderRegistry.generateUrl route {| opt_params := None; opt_query := q |} w
     = (Normal (addQuery (path route) q),
        logged w warn
          ("Route " +:+ path route +:+ " has parameters but none were provided.") None)
  /\ Registry.generateUrl (inl route) no_options w
     = (Normal (path route),
        logged w warn
          ("Route " +:+ path route +:+ " has parameters but none were provided") None)
  /\ Str.startsWith (addQuery (path route) q) (path route) = true
  /\ Str.startsWith (addQuery p q) p = true.
Proof.
  intros Hroute Hp Hq.
  assert (Hroute' : Str.includes (path route) "/:" = true) by exact Hroute.
  assert (Hp' : Str.includes p "/:" = true) by exact Hp.
  assert (Hval : match q with
                 | Some qs => exists data,
                     Registry.validateQuery route (VObject qs) = Normal data
                 | None => True
                 end).
  { destruct q as [qs|]; [now apply validateQuery_accepted | exact I]. }
  repeat split; try apply addQuery_startsWith.
  - unfold Registry.generateUrl, bind, ret, try_catch, lift, when. simpl.
    destruct (params route), (query route), q as [qs|]; simpl;
      try destruct Hval as [data ->]; simpl;
      unfold Registry.hasParams; simpl; rewrite Hroute'; reflexivity.
  - unfold Registry.generateUrl, bind, ret, when. simpl.
    unfold Registry.hasParams. simpl. rewrite Hp'. reflexivity.
  - unfold RouteBuilderRegistry.generateUrl, bind, ret, lift, when. simpl.
    rewrite Hroute. simpl.
    destruct (params route), (query route), q as [qs|]; simpl;
      try destruct Hval as [data ->]; reflexivity.
  - unfold Registry.generateUrl, bind, ret, when. simpl.
    destruct (params route), (query route); simpl;
      unfold Registry.hasParams; simpl; rewrite Hroute'; reflexivity.
Qed.

Lemma missing_params_warn_and_proceed_witness :
  Registry.generateUrl (inl userRoute) no_options freshWorld
  = (Normal "/user/:id",
     logged freshWorld warn
       "Route /user/:id has parameters but none were provided" None).
Proof.
  apply (missing_params_warn_and_proceed userRoute "/user/:id" None freshWorld);
    reflexivity.
Defined.

(** ** The hooks of the router instance *)


(** ** Running the generators *)

Ltac run_monad :=
  unfold Registry.generateUrl, RouteBuilderRegistry.generateUrl, LinkComponent.Link,
    RouteBuilder.generateUrl, Registry.getRouteByPath,
    Registry.validateParams, Registry.validateQuery, parse,
    bind, ret, try_catch, lift, throw, when, console_error, console_warn, log;
  simpl.

Ltac split_cases :=
  repeat (simpl;
          match goal with
          | |- context [params ?r] => destruct (params r) eqn:?
          | |- context [query ?r] => destruct (query r) eqn:?
          | |- context [safeParse ?s ?v] => destruct (safeParse s v) eqn:?
          | |- context [Obj.get (pathRegistry ?w) ?h] =>
              destruct (Obj.get (pathRegistry w) h) as [[]|] eqn:?
          | |- context [if ?b then _ else _] => destruct b eqn:?
          | |- context [match ?o with Some _ => _ | None => _ end] =>
              is_var o; destruct o
          end).

(** ** Validation failures during generation *)





(** ** Validation of a route that has no schema *)




(** ** Substitution of the path parameters *)

Lemma startsWith_append (a b : string) : Str.startsWith (a +:+ b) a = true.
Proof. apply (proj2 (startsWith_spec (a +:+ b) a)). exists b. reflexivity. Qed.

Lemma drop_append (a b : string) : Str.drop (String.length a) (a +:+ b) = b.
Proof. induction a as [|c a IH]; [reflexivity | exact IH]. Qed.

Lemma count_cons (c d : ascii) (s : string) :
  Str.count c (String d s) = (if Ascii.eqb c d then 1 else 0) + Str.count c s.
Proof. reflexivity. Qed.

Lemma GetSubstitution_literal (matched before after : string) (c : ascii) (rest : string) :
  Ascii.eqb c "$" = false ->
  Str.GetSubstitution matched before after (String c rest)
  = String c (Str.GetSubstitution matched before after rest).
Proof.
  intros Hc.
  change (Str.GetSubstitution matched before after (String c rest))
    with (if Ascii.eqb c "$"
          then match rest with
               | EmptyString => String c EmptyString
               | String d rest' =>
                   if Ascii.eqb d "$" then
                     String "$" (Str.GetSubstitution matched before after rest')
                   else if Ascii.eqb d "&" then
                     matched +:+ Str.GetSubstitution matched before after rest'
                   else if Ascii.eqb d "`" then
                     before +:+ Str.GetSubstitution matched before after rest'
                   else if Ascii.eqb d "'" then
                     after +:+ Str.GetSubstitution matched before after rest'
                   else
                     String c (String d (Str.GetSubstitution matched before after rest'))
               end
          else String c (Str.GetSubstitution matched before after rest)).
  now rewrite Hc.
Qed.

Lemma GetSubstitution_plain (matched before after v : string) :
  Str.count "$" v = 0 -> Str.GetSubstitution matched before after v = v.
Proof.
  induction v as [|c v IH]; [reflexivity|].
  rewrite count_cons. intros Hv.
  destruct (Ascii.eqb "$" c) eqn:E; [discriminate|].
  rewrite GetSubstitution_literal by now rewrite Ascii.eqb_sym.
  now rewrite IH.
Qed.

(** The root of C1 and C2: replacing [:name] also hits the first token that
    merely starts with [:name]. *)
Lemma replace_hits_longer_token (name rest tail v : string) :
  Str.count "$" v = 0 ->
  Str.replace ("/" +:+ (":" +:+ name) +:+ rest +:+ tail) (":" +:+ name) v
  = "/" +:+ v +:+ rest +:+ tail.
Proof.
  intros Hv. unfold Str.replace.
  assert (Hsearch : Str.search ("/" +:+ (":" +:+ name) +:+ rest +:+ tail) (":" +:+ name)
                    = Some ("/", rest +:+ tail)).
  { change (Str.search ("/" +:+ (":" +:+ name) +:+ rest +:+ tail) (":" +:+ name))
      with (match Str.search ((":" +:+ name) +:+ rest +:+ tail) (":" +:+ name) with
            | Some (before, after) => Some (String "/" before, after)
            | None => None
            end).
    assert (Hinner : Str.search ((":" +:+ name) +:+ rest +:+ tail) (":" +:+ name)
                     = Some ("", rest +:+ tail)).
    { change (Str.search ((":" +:+ name) +:+ rest +:+ tail) (":" +:+ name))
        with (if Str.startsWith ((":" +:+ name) +:+ rest +:+ tail) (":" +:+ name)
              then Some ("", Str.drop (String.length (":" +:+ name))
                                      ((":" +:+ name) +:+ rest +:+ tail))
              else match Str.search (name +:+ rest +:+ tail) (":" +:+ name) with
                   | Some (before, after) => Some (String ":" before, after)
                   | None => None
                   end).
      now rewrite startsWith_append, drop_append. }
    now rewrite Hinner. }
  rewrite Hsearch, GetSubstitution_plain by exact Hv. reflexivity.
Qed.

(** C1, at the input where the code departs from it. With the template
    [/:identifier/:id] and values for both names, the entry [id] is replaced
    first and lands inside the [:identifier] segment: the result is
    [/1entifier/:id], where token-bounded replacement gives [/x/1]. The
    result depends on the order of the segments and of the entries: the same
    values in the other order, or the template [/:id/:identifier], give the
    expected URL. *)
Theorem substitution_crosses_token_boundary :
  RouteBuilder.generateUrl
    {| path := "/:identifier/:id"; params := None; query := None |}
    {| opt_params := Some [("id", VString "1"); ("identifier", VString "x")];
       opt_query := None |}
  = "/1entifier/:id"
  /\ RouterParser.getPath "/:identifier/:id"
       (Some [("id", VString "1"); ("identifier", VString "x")]) None
     = "/1entifier/:id"
  /\ RouteBuilder.generateUrl
       {| path := "/:identifier/:id"; params := None; query := None |}
       {| opt_params := Some [("identifier", VString "x"); ("id", VString "1")];
          opt_query := None |}
     = "/x/1"
  /\ RouteBuilder.generateUrl
       {| path := "/:id/:identifier"; params := None; query := None |}
       {| opt_params := Some [("id", VString "1"); ("identifier", VString "x")];
          opt_query := None |}
     = "/1/x"
  /\ RouteBuilder.generateUrl
       {| path := "/:id/:identifier"; params := None; query := None |}
       {| opt_params := Some [("identifier", VString "x"); ("id", VString "1")];
          opt_query := None |}
     = "/1/x".
Proof. repeat split. Qed.

(** C2, at the input where the code departs from it. The template
    [/:identifier/:id] declares [identifier] and [id]; with a value for each
    and no query, the generated URL still has the segment [:id]. A value
    that is the replacement pattern [$&] leaves its own token in place as
    well. *)
Theorem declared_token_survives_generation :
  RouteBuilderRegistry.expectedParams "/:identifier/:id" = ["identifier"; "id"]
  /\ Registry.generateUrl (inr "/:identifier/:id")
       {| opt_params := Some [("id", VString "1"); ("identifier", VString "x")];
          opt_query := Some [] |}
       freshWorld
     = (Normal "/1entifier/:id", freshWorld)
  /\ In ":id" (RouteBuilderRegistry.split_slash "/1entifier/:id")
  /\ RouteBuilder.generateUrl
       {| path := "/:identifier/:id"; params := None; query := None |}
       {| opt_params := Some [("id", VString "1"); ("identifier", VString "x")];
          opt_query := Some [] |}
     = "/1entifier/:id"
  /\ RouteBuilder.generateUrl
       {| path := "/user/:id"; params := None; query := None |}
       {| opt_params := Some [("id", VString "$&")]; opt_query := Some [] |}
     = "/user/:id".
Proof. repeat split. simpl. tauto. Qed.

(** ** The scenarios of the README *)

Example user_settings :
  RouteBuilder.generateUrl userRoute
    {| opt_params := Some [("id", VString "42")];
       opt_query := Some [("tab", VString "settings")] |}
  = "/user/42?tab=settings".
Proof. reflexivity. Qed.

Example about_plain : RouteBuilder.generateUrl aboutRoute no_options = "/about".
Proof. reflexivity. Qed.

Example query_in_caller_order :
  addQuery "/list" (Some [("page", VNumber (Finite false 2 1)); ("sort", VString "asc")])
  = "/list?page=2&sort=asc".
Proof. reflexivity. Qed.

Example query_skips_undefined :
  addQuery "/list" (Some [("page", VUndefined); ("sort", VString "asc")])
  = "/list?sort=asc".
Proof. reflexivity. Qed.

Example query_is_encoded :
  addQuery "/search" (Some [("q", VString "a b&c?d"); ("exact", VBoolean true)])
  = "/search?q=a+b%26c%3Fd&exact=true".
Proof. reflexivity. Qed.

Example numbers_render :
  map Number_toString
      [Finite false 2 1; Finite true 15 1; Finite false 1 22; Finite false 123 (-5)]
  = ["2"; "-1.5"; "1e+21"; "0.00000123"].
Proof. reflexivity. Qed.

(** * Further properties of the code *)

(** ** Substitution on well-formed templates *)

Lemma free_true (c : ascii) (s : string) : free c s = true <-> Str.count c s = 0.
Proof. unfold free. apply Nat.eqb_eq. Qed.

Lemma free_append (c : ascii) (a b : string) :
  free c (a +:+ b) = free c a && free c b.
Proof.
  unfold free. rewrite count_append.
  destruct (Str.count c a), (Str.count c b); reflexivity.
Qed.

Lemma free_cons (c d : ascii) (s : string) :
  free c (String d s) = negb (Ascii.eqb c d) && free c s.
Proof.
  unfold free. rewrite count_cons.
  destruct (Ascii.eqb c d); reflexivity.
Qed.

Lemma startsWith_cons (a b : ascii) (s pat : string) :
  Str.startsWith (String b s) (String a pat)
  = if Ascii.eqb a b then Str.startsWith s pat else false.
Proof. reflexivity. Qed.

Lemma search_unfold (s pat : string) :
  Str.search s pat =
  if Str.startsWith s pat then Some (EmptyString, Str.drop (String.length pat) s)
  else match s with
       | EmptyString => None
       | String c s' =>
           match Str.search s' pat with
           | Some (before, after) => Some (String c before, after)
           | None => None
           end
       end.
Proof. destruct s; reflexivity. Qed.

Lemma search_skip_free (a s key : string) :
  free ":" a = true ->
  Str.search (a +:+ s) (":" +:+ key) =
  match Str.search s (":" +:+ key) with
  | Some (before, after) => Some (a +:+ before, after)
  | None => None
  end.
Proof.
  induction a as [|c a IH]; intros Ha.
  - rewrite append_nil_l. destruct (Str.search s (":" +:+ key)) as [[b r]|]; reflexivity.
  - rewrite free_cons in Ha. apply andb_prop in Ha as [Hc Ha].
    rewrite append_cons, search_unfold.
    change (":" +:+ key) with (String ":" key).
    rewrite startsWith_cons.
    destruct (Ascii.eqb ":" c); [discriminate|].
    change (String ":" key) with (":" +:+ key).
    rewrite (IH Ha).
    destruct (Str.search s (":" +:+ key)) as [[b r]|]; reflexivity.
Qed.

Lemma replace_skip_free (a s key v : string) :
  free ":" a = true -> free "$" v = true ->
  Str.replace (a +:+ s) (":" +:+ key) v = a +:+ Str.replace s (":" +:+ key) v.
Proof.
  intros Ha Hv. apply free_true in Hv.
  unfold Str.replace. rewrite (search_skip_free a s key Ha).
  destruct (Str.search s (":" +:+ key)) as [[b r]|]; [|reflexivity].
  rewrite !GetSubstitution_plain by exact Hv.
  now rewrite append_assoc.
Qed.

Lemma replace_at (key rest v : string) :
  free "$" v = true ->
  Str.replace ((":" +:+ key) +:+ rest) (":" +:+ key) v = v +:+ rest.
Proof.
  intros Hv. apply free_true in Hv.
  unfold Str.replace. rewrite search_unfold, startsWith_append, drop_append.
  now rewrite GetSubstitution_plain.
Qed.

Lemma replace_skip_token (name rest key v : string) :
  free ":" name = true ->
  Str.startsWith (name +:+ rest) key = false ->
  free "$" v = true ->
  Str.replace ((":" +:+ name) +:+ rest) (":" +:+ key) v
  = (":" +:+ name) +:+ Str.replace rest (":" +:+ key) v.
Proof.
  intros Hn Hstart Hv.
  pose proof (replace_skip_free name rest key v Hn Hv) as Hskip.
  apply free_true in Hv.
  unfold Str.replace in *.
  change ((":" +:+ name) +:+ rest) with (String ":" (name +:+ rest)).
  rewrite search_unfold.
  change (":" +:+ key) with (String ":" key) at 1.
  rewrite startsWith_cons. simpl (Ascii.eqb ":" ":"). cbv iota. rewrite Hstart.
  destruct (Str.search (name +:+ rest) (":" +:+ key)) as [[b r]|] eqn:E.
  - rewrite !GetSubstitution_plain in * by exact Hv.
    rewrite append_cons. f_equal.
    rewrite Hskip. reflexivity.
  - rewrite Hskip. reflexivity.
Qed.

Lemma startsWith_nil (s : string) : Str.startsWith s "" = true.
Proof. reflexivity. Qed.

Lemma startsWith_boundary (name rest key : string) :
  free "/" key = true ->
  rest = "" \/ (exists r, rest = String "/" r) ->
  Str.startsWith (name +:+ rest) key = Str.startsWith name key.
Proof.
  revert key. induction name as [|d name IH]; intros [|c key] Hk Hrest;
    try reflexivity.
  - rewrite append_nil_l. destruct Hrest as [-> | [r ->]]; [reflexivity|].
    rewrite free_cons in Hk. apply andb_prop in Hk as [Hc _].
    rewrite startsWith_cons.
    destruct (Ascii.eqb_spec c "/") as [-> | _]; [discriminate | reflexivity].
  - rewrite append_cons, !startsWith_cons.
    rewrite free_cons in Hk. apply andb_prop in Hk as [_ Hk].
    destruct (Ascii.eqb c d); [now apply IH | reflexivity].
Qed.

Lemma renderPath_boundary (segs : list segment) :
  renderPath segs = "" \/ exists r, renderPath segs = String "/" r.
Proof. destruct segs as [|seg rest]; [now left | right]. simpl. eauto. Qed.

Lemma keyOk_cons (seg : segment) (rest : list segment) (key : string) :
  keyOk (seg :: rest) key = true -> keyOk rest key = true.
Proof.
  unfold keyOk. intros H. apply andb_prop in H as [Hk Hall]. rewrite Hk. simpl.
  destruct seg as [text | name]; simpl in Hall; [exact Hall|].
  now apply andb_prop in Hall as [_ Hall].
Qed.

Lemma replace_render (segs : list segment) (key v : string) :
  forallb (fun seg => free ":" (segmentText seg)) segs = true ->
  keyOk segs key = true ->
  free "$" v = true ->
  Str.replace (renderPath segs) (":" +:+ key) v = renderPath (substFirst key v segs).
Proof.
  intros Hsegs Hkey Hv.
  induction segs as [|seg rest IH]; [reflexivity|].
  simpl in Hsegs. apply andb_prop in Hsegs as [Hseg Hrest].
  specialize (IH Hrest (keyOk_cons _ _ _ Hkey)).
  destruct seg as [text | name]; simpl in Hseg.
  - change (renderPath (Literal text :: rest))
      with ("/" +:+ text +:+ renderPath rest).
    rewrite <- append_assoc, replace_skip_free, IH, append_assoc;
      [reflexivity | | exact Hv].
    now rewrite free_append, Hseg.
  - change (renderPath (Token name :: rest))
      with ("/" +:+ (":" +:+ name) +:+ renderPath rest).
    rewrite replace_skip_free by (reflexivity || exact Hv).
    simpl substFirst.
    destruct (String.eqb_spec name key) as [-> | Hne].
    + now rewrite replace_at.
    + assert (Hstart : Str.startsWith name key = false).
      { unfold keyOk in Hkey. apply andb_prop in Hkey as [_ Hall].
        simpl in Hall. apply andb_prop in Hall as [Himp _].
        destruct (Str.startsWith name key); [|reflexivity].
        simpl in Himp. apply String.eqb_eq in Himp. contradiction. }
      rewrite replace_skip_token, IH; try assumption; [reflexivity|].
      unfold keyOk in Hkey. apply andb_prop in Hkey as [Hslash _].
      now rewrite startsWith_boundary by (assumption || apply renderPath_boundary).
Qed.

Lemma includes_tokens_substFirst (key v name : string) (segs : list segment) :
  Array_includes (tokens (substFirst key v segs)) name = true ->
  Array_includes (tokens segs) name = true.
Proof.
  unfold Array_includes.
  induction segs as [|[text | n] rest IH]; simpl; [auto | exact IH |].
  destruct (String.eqb n key); simpl.
  - intros ->. apply orb_true_r.
  - destruct (String.eqb name n); [reflexivity | exact IH].
Qed.

Lemma substFirst_templateOk (key v : string) (segs : list segment) :
  free ":" v = true -> templateOk segs = true ->
  templateOk (substFirst key v segs) = true.
Proof.
  unfold templateOk. intros Hv H. apply andb_prop in H as [Hfree Hdist].
  apply andb_true_intro. split.
  - clear Hdist. induction segs as [|[text | n] rest IH]; simpl in *; [reflexivity | |].
    + apply andb_prop in Hfree as [-> Hrest]. now apply IH.
    + apply andb_prop in Hfree as [Hn Hrest].
      destruct (String.eqb n key); simpl; [now rewrite Hv | now rewrite Hn, IH].
  - clear Hfree. induction segs as [|[text | n] rest IH]; simpl in *; [reflexivity | auto |].
    apply andb_prop in Hdist as [Hn Hrest].
    destruct (String.eqb n key); simpl; [exact Hrest|].
    rewrite IH by exact Hrest. rewrite andb_true_r.
    destruct (Array_includes (tokens (substFirst key v rest)) n) eqn:E; [|reflexivity].
    apply includes_tokens_substFirst in E. now rewrite E in Hn.
Qed.

Lemma substFirst_keyOk (key v k : string) (segs : list segment) :
  keyOk segs k = true -> keyOk (substFirst key v segs) k = true.
Proof.
  unfold keyOk. intros H. apply andb_prop in H as [Hk Hall]. rewrite Hk. simpl.
  induction segs as [|[text | n] rest IH]; simpl in *; [reflexivity | auto |].
  apply andb_prop in Hall as [Hn Hrest].
  destruct (String.eqb n key); simpl; [exact Hrest | now rewrite Hn, IH].
Qed.

Lemma replaceParams_render (entries : object) (segs : list segment) :
  templateOk segs = true ->
  forallb (entryOk segs) entries = true ->
  replaceParams (renderPath segs) entries =
  renderPath (fold_left (fun segs entry =>
                           substFirst (fst entry) (ToString (snd entry)) segs)
                        entries segs).
Proof.
  unfold replaceParams.
  revert segs. induction entries as [|[k v] entries IH]; intros segs Hsegs Hentries;
    [reflexivity|].
  simpl in Hentries. apply andb_prop in Hentries as [He Hes].
  unfold entryOk in He. simpl in He. apply andb_prop in He as [Hk Hv].
  unfold valueOk in Hv. apply andb_prop in Hv as [Hcolon Hdollar].
  simpl. rewrite replace_render; try assumption.
  - apply IH; [now apply substFirst_templateOk|].
    clear IH. induction entries as [|e es IHes]; [reflexivity|].
    simpl in *. apply andb_prop in Hes as [He Hes].
    rewrite IHes by exact Hes. rewrite andb_true_r.
    unfold entryOk in *. apply andb_prop in He as [Hek Hev].
    now rewrite substFirst_keyOk, Hev.
  - unfold templateOk in Hsegs. now apply andb_prop in Hsegs as [Hfree _].
Qed.

Lemma fill_other_key (k : string) (v : value) (entries : object) (segs : list segment) :
  Array_includes (tokens segs) k = false ->
  map (fill ((k, v) :: entries)) segs = map (fill entries) segs.
Proof.
  unfold Array_includes.
  induction segs as [|[text | n] rest IH]; simpl; intros H; [reflexivity | |].
  - now rewrite IH.
  - apply orb_false_elim in H as [Hn Hrest]. rewrite Hn, IH by exact Hrest.
    reflexivity.
Qed.

Lemma fill_literals (entries : object) (segs : list segment) :
  tokens segs = [] -> map (fill entries) segs = segs.
Proof.
  induction segs as [|[text | n] rest IH]; simpl; intros H;
    [reflexivity | now rewrite IH | discriminate].
Qed.

Lemma substFirst_fill (k : string) (v : value) (entries : object) (segs : list segment) :
  distinct (tokens segs) = true ->
  map (fill entries) (substFirst k (ToString v) segs)
  = map (fill ((k, v) :: entries)) segs.
Proof.
  induction segs as [|[text | n] rest IH]; simpl; intros Hd; [reflexivity | |].
  - now rewrite IH.
  - apply andb_prop in Hd as [Hn Hrest].
    rewrite (String.eqb_sym k n).
    destruct (String.eqb_spec n k) as [-> | Hne]; simpl.
    + rewrite fill_other_key; [reflexivity|].
      now destruct (Array_includes (tokens rest) k).
    + now rewrite IH.
Qed.

Lemma fold_substFirst_fill (entries : object) (segs : list segment) :
  templateOk segs = true ->
  forallb (fun entry => free ":" (ToString (snd entry))) entries = true ->
  fold_left (fun segs entry => substFirst (fst entry) (ToString (snd entry)) segs)
            entries segs
  = map (fill entries) segs.
Proof.
  revert segs. induction entries as [|[k v] entries IH]; intros segs Hsegs Hvals; simpl.
  - clear. induction segs as [|[text | n] rest IH]; simpl; [reflexivity | |];
      now rewrite <- IH.
  - simpl in Hvals. apply andb_prop in Hvals as [Hv Hvals].
    rewrite IH; [| now apply substFirst_templateOk | exact Hvals].
    apply substFirst_fill.
    unfold templateOk in Hsegs. now apply andb_prop in Hsegs as [_ Hd].
Qed.

Lemma entryOk_value_free (segs : list segment) (entries : object) :
  forallb (entryOk segs) entries = true ->
  forallb (fun entry => free ":" (ToString (snd entry))) entries = true.
Proof.
  induction entries as [|e es IH]; simpl; [reflexivity|].
  intros H. apply andb_prop in H as [He Hes]. rewrite IH by exact Hes.
  unfold entryOk, valueOk in He.
  apply andb_prop in He as [_ Hv]. apply andb_prop in Hv as [-> _]. reflexivity.
Qed.

Lemma lookup_entry_free (name : string) (entries : object) (v : value) :
  forallb (fun entry => free ":" (ToString (snd entry))) entries = true ->
  lookup_entry name entries = Some v ->
  free ":" (ToString v) = true.
Proof.
  induction entries as [|[k x] es IH]; simpl; [discriminate|].
  intros H. apply andb_prop in H as [Hx Hes].
  destruct (String.eqb k name); [intros [= <-]; exact Hx | now apply IH].
Qed.

Lemma covered_free (entries : object) (segs : list segment) :
  forallb (fun seg => free ":" (segmentText seg)) segs = true ->
  forallb (fun entry => free ":" (ToString (snd entry))) entries = true ->
  covered entries segs = true ->
  free ":" (renderPath (map (fill entries) segs)) = true.
Proof.
  unfold covered. intros Hsegs Hvals.
  induction segs as [|[text | n] rest IH]; simpl in *; intros Hcov; [reflexivity | |].
  - apply andb_prop in Hsegs as [Htext Hrest].
    change (free ":" ("/" +:+ text +:+ renderPath (map (fill entries) rest)) = true).
    now rewrite !free_append, Htext, IH.
  - apply andb_prop in Hsegs as [_ Hrest]. apply andb_prop in Hcov as [Hn Hcov].
    destruct (lookup_entry n entries) as [v|] eqn:E; [|discriminate].
    change (free ":" ("/" +:+ ToString v +:+ renderPath (map (fill entries) rest)) = true).
    now rewrite !free_append, (lookup_entry_free n entries v Hvals E), IH.
Qed.

(** X1. Substitution on a well-formed template is exact. When the path is
    made of slash-separated segments without a colon inside, no parameter
    name occurs twice, no key of the params has a slash or is the beginning
    of another parameter's name, and no value has a colon or a dollar sign,
    [generateUrl] and [getPath] replace every token by the value of the
    first entry under its name, as it stands, and leave the other segments
    alone; when every token has an entry, no colon is left in the path. *)
Theorem generateUrl_fills_tokens
    (route : RouteDefinition) (segs : list segment) (entries : object)
    (q : option object) :
  path route = renderPath segs ->
  templateOk segs = true ->
  forallb (entryOk segs) entries = true ->
  replaceParams (renderPath segs) entries = renderPath (map (fill entries) segs)
  /\ RouteBuilder.generateUrl route
       {| opt_params := Some entries; opt_query := q |}
     = addQuery (renderPath (map (fill entries) segs)) q
  /\ RouterParser.getPath (renderPath segs) (Some entries) q
     = addQuery (renderPath (map (fill entries) segs)) q
  /\ (covered entries segs = true ->
      Str.count ":" (renderPath (map (fill entries) segs)) = 0).
Proof.
  intros Hpath Hsegs Hentries.
  assert (Hrepl : replaceParams (renderPath segs) entries
                  = renderPath (map (fill entries) segs)).
  { rewrite replaceParams_render by assumption.
    rewrite fold_substFirst_fill;
      [reflexivity | assumption | now apply entryOk_value_free with segs]. }
  split; [exact Hrepl|]. split; [|split].
  - unfold RouteBuilder.generateUrl. cbn [opt_params opt_query].
    now rewrite Hpath, Hrepl.
  - unfold RouterParser.getPath. now rewrite Hrepl.
  - intros Hcov. apply free_true. apply covered_free; try assumption.
    + unfold templateOk in Hsegs. now apply andb_prop in Hsegs as [Hfree _].
    + now apply entryOk_value_free with segs.
Qed.

Lemma generateUrl_fills_tokens_witness :
  RouteBuilder.generateUrl
    {| path := "/org/:org/user/:id"; params := None; query := None |}
    {| opt_params := Some [("id", VNumber (Finite false 42 2)); ("org", VString "acme")];
       opt_query := Some [("tab", VString "settings")] |}
  = "/org/acme/user/42?tab=settings".
Proof.
  exact (proj1 (proj2 (generateUrl_fills_tokens
           {| path := "/org/:org/user/:id"; params := None; query := None |}
           [Literal "org"; Token "org"; Literal "user"; Token "id"]
           [("id", VNumber (Finite false 42 2)); ("org", VString "acme")]
           (Some [("tab", VString "settings")])
           eq_refl eq_refl eq_refl))).
Defined.

(** ** The names a path declares *)

Lemma split_slash_unfold (c : ascii) (s : string) :
  RouteBuilderRegistry.split_slash (String c s) =
  if Ascii.eqb c "/" then EmptyString :: RouteBuilderRegistry.split_slash s
  else match RouteBuilderRegistry.split_slash s with
       | [] => [String c EmptyString]
       | seg :: segs => String c seg :: segs
       end.
Proof. reflexivity. Qed.

Lemma split_slash_free (a s : string) :
  free "/" a = true ->
  RouteBuilderRegistry.split_slash (a +:+ s) =
  match RouteBuilderRegistry.split_slash s with
  | [] => [a]
  | seg :: segs => (a +:+ seg) :: segs
  end.
Proof.
  induction a as [|c a IH]; intros Ha.
  - rewrite append_nil_l. destruct s as [|d s]; [reflexivity|].
    rewrite split_slash_unfold.
    destruct (Ascii.eqb d "/"); [reflexivity|].
    destruct (RouteBuilderRegistry.split_slash s); reflexivity.
  - rewrite free_cons in Ha. apply andb_prop in Ha as [Hc Ha].
    rewrite append_cons, split_slash_unfold, (IH Ha).
    rewrite Ascii.eqb_sym. destruct (Ascii.eqb "/" c); [discriminate|].
    destruct (RouteBuilderRegistry.split_slash s); reflexivity.
Qed.

Lemma split_slash_render (segs : list segment) :
  forallb (fun seg => free "/" (segmentText seg)) segs = true ->
  RouteBuilderRegistry.split_slash (renderPath segs)
  = EmptyString :: map renderSegment segs.
Proof.
  induction segs as [|seg rest IH]; intros H; [reflexivity|].
  simpl in H. apply andb_prop in H as [Hseg Hrest].
  change (renderPath (seg :: rest))
    with (String "/" (renderSegment seg +:+ renderPath rest)).
  rewrite split_slash_unfold. simpl (Ascii.eqb "/" "/"). cbv iota.
  rewrite split_slash_free, (IH Hrest).
  - now rewrite append_nil_r.
  - destruct seg as [text | name]; [exact Hseg|].
    change (renderSegment (Token name)) with (":" +:+ name).
    change (segmentText (Token name)) with name in Hseg.
    now rewrite free_append, Hseg.
Qed.

Lemma startsWith_colon_free (s : string) :
  free ":" s = true -> Str.startsWith s ":" = false.
Proof.
  destruct s as [|c s]; [reflexivity|].
  rewrite free_cons. intros H. apply andb_prop in H as [Hc _].
  change (Str.startsWith (String c s) ":") with (if Ascii.eqb ":" c then true else false).
  now destruct (Ascii.eqb ":" c).
Qed.

(** X2. The names [defineRoute] expects are the tokens of the path: for a
    path made of segments that hold no slash and no colon, [expectedParams]
    returns the parameter names, each once per token, in path order. *)
Theorem expectedParams_are_tokens (segs : list segment) :
  forallb (fun seg => free "/" (segmentText seg)) segs = true ->
  forallb (fun seg => free ":" (segmentText seg)) segs = true ->
  RouteBuilderRegistry.expectedParams (renderPath segs) = tokens segs.
Proof.
  intros Hslash Hcolon.
  unfold RouteBuilderRegistry.expectedParams. rewrite split_slash_render by exact Hslash.
  cbn -[Str.startsWith Str.drop free]. clear Hslash.
  induction segs as [|[text | name] rest IH]; [reflexivity | |];
    cbn -[Str.startsWith Str.drop free] in *.
  - apply andb_prop in Hcolon as [Htext Hrest].
    rewrite (startsWith_colon_free text Htext). now apply IH.
  - apply andb_prop in Hcolon as [_ Hrest].
    change (Str.startsWith (":" +:+ name) ":") with true. cbv iota.
    change (Str.drop 1 (":" +:+ name)) with name.
    f_equal. now apply IH.
Qed.

Lemma expectedParams_are_tokens_witness :
  RouteBuilderRegistry.expectedParams "/org/:org/user/:id" = ["org"; "id"].
Proof.
  exact (expectedParams_are_tokens
           [Literal "org"; Token "org"; Literal "user"; Token "id"]
           eq_refl eq_refl).
Defined.

Lemma split_slash_head (s : string) :
  exists seg segs,
    RouteBuilderRegistry.split_slash s = seg :: segs
    /\ Str.startsWith seg ":" = Str.startsWith s ":"
    /\ existsb (fun segment => Str.startsWith segment ":") segs = Str.includes s "/:".
Proof.
  induction s as [|c s (seg & segs & Hsplit & Hhead & Htail)].
  - exists "", []. repeat split.
  - rewrite split_slash_unfold, Hsplit.
    destruct (Ascii.eqb_spec c "/") as [-> | Hne].
    + exists "", (seg :: segs). split; [reflexivity|]. split; [reflexivity|].
      cbn -[Str.startsWith Str.includes]. rewrite Hhead, Htail.
      change (Str.includes (String "/" s) "/:")
        with (if Str.startsWith s ":" then true else Str.includes s "/:").
      now destruct (Str.startsWith s ":").
    + exists (String c seg), segs. split; [reflexivity|]. split; [reflexivity|].
      rewrite Htail.
      change (Str.includes (String c s) "/:")
        with (if (if Ascii.eqb "/" c then Str.startsWith s ":" else false)
              then true else Str.includes s "/:").
      rewrite Ascii.eqb_sym.
      destruct (Ascii.eqb_spec c "/"); [contradiction | reflexivity].
Qed.

(** X3. The two tests for "this path has parameters" agree except at the
    very start of the path: [defineRoute] expects at least one name exactly
    when [hasParams] holds or the path itself begins with a colon. *)
Theorem expectedParams_vs_hasParams (p : string) :
  negb (Nat.eqb (length (RouteBuilderRegistry.expectedParams p)) 0)
  = Registry.hasParams (inr p) || Str.startsWith p ":".
Proof.
  destruct (split_slash_head p) as (seg & segs & Hsplit & Hhead & Htail).
  unfold RouteBuilderRegistry.expectedParams, Registry.hasParams.
  rewrite Hsplit, <- Hhead, <- Htail. cbn -[Str.startsWith Str.drop].
  rewrite orb_comm.
  destruct (Str.startsWith seg ":"); [reflexivity|]. cbn -[Str.startsWith Str.drop].
  clear. induction segs as [|s segs IH]; [reflexivity|].
  cbn -[Str.startsWith Str.drop].
  destruct (Str.startsWith s ":"); [reflexivity | exact IH].
Qed.

(** ** Paths without tokens *)

Lemma replace_free (s key v : string) :
  free ":" s = true -> Str.replace s (":" +:+ key) v = s.
Proof.
  intros Hs. unfold Str.replace.
  rewrite <- (append_nil_r s) at 1. rewrite (search_skip_free s "" key Hs).
  reflexivity.
Qed.

Lemma replaceParams_free (s : string) (entries : object) :
  free ":" s = true -> replaceParams s entries = s.
Proof.
  intros Hs. unfold replaceParams.
  induction entries as [|e es IH]; [reflexivity|].
  simpl. now rewrite replace_free.
Qed.

Lemma includes_free (s : string) :
  free ":" s = true -> Str.includes s "/:" = false.
Proof.
  induction s as [|c s IH]; [reflexivity|].
  rewrite free_cons. intros H. apply andb_prop in H as [Hc Hs].
  change (Str.includes (String c s) "/:")
    with (if (if Ascii.eqb "/" c then Str.startsWith s ":" else false)
          then true else Str.includes s "/:").
  rewrite (IH Hs), (startsWith_colon_free s Hs).
  now destruct (Ascii.eqb "/" c).
Qed.

(** X4. A path without a colon is static: whatever params are supplied,
    none is substituted, and the generators return the path followed by the
    query string; the registry's [generateUrl] on such a bare path writes
    nothing to the console. *)
Theorem static_path_ignores_params
    (route : RouteDefinition) (options : Options) (w : World) :
  free ":" (path route) = true ->
  RouteBuilder.generateUrl route options = addQuery (path route) (opt_query options)
  /\ RouterParser.getPath (path route) (opt_params options) (opt_query options)
     = addQuery (path route) (opt_query options)
  /\ RouterParser.getDynamicPath (path route) (opt_params options) = path route
  /\ Registry.generateUrl (inr (path route)) options w
     = (Normal (addQuery (path route) (opt_query options)), w).
Proof.
  intros Hfree. destruct options as [[ps|] q];
    unfold RouteBuilder.generateUrl, RouterParser.getPath, RouterParser.getDynamicPath,
      Registry.generateUrl, bind, ret, when, Registry.hasParams;
    cbn [opt_params opt_query];
    rewrite ?replaceParams_free, ?includes_free by exact Hfree;
    repeat split.
Qed.

Lemma static_path_ignores_params_witness :
  RouteBuilder.generateUrl aboutRoute
    {| opt_params := Some [("id", VString "42")]; opt_query := None |}
  = "/about".
Proof.
  exact (proj1 (static_path_ignores_params aboutRoute
                  {| opt_params := Some [("id", VString "42")]; opt_query := None |}
                  freshWorld eq_refl)).
Defined.

(** ** Registration and lookup *)

Lemma find_app {A} (f : A -> bool) (l1 l2 : list A) :
  find f (l1 ++ l2) = match find f l1 with
                      | Some x => Some x
                      | None => find f l2
                      end.
Proof.
  induction l1 as [|x l1 IH]; [reflexivity|].
  simpl. destruct (f x); [reflexivity | exact IH].
Qed.

Lemma register_fold_routeRegistry (routes : list (string * RouteDefinition)) (w : World) :
  routeRegistry (fold_left Registry.register routes w)
  = fold_left (fun o entry => Obj.set o (fst entry) (snd entry)) routes (routeRegistry w).
Proof.
  revert w. induction routes as [|e routes IH]; intros w; [reflexivity|].
  simpl fold_left. now rewrite IH.
Qed.

Lemma register_fold_pathRegistry (routes : list (string * RouteDefinition)) (w : World) :
  pathRegistry (fold_left Registry.register routes w)
  = fold_left (fun o entry => Obj.set o (path (snd entry)) (snd entry)) routes (pathRegistry w).
Proof.
  revert w. induction routes as [|e routes IH]; intros w; [reflexivity|].
  simpl fold_left. now rewrite IH.
Qed.

Lemma register_fold_console (routes : list (string * RouteDefinition)) (w : World) :
  console (fold_left Registry.register routes w) = console w.
Proof.
  revert w. induction routes as [|e routes IH]; intros w; [reflexivity|].
  simpl. now rewrite IH.
Qed.

Lemma set_proto_other (o : Obj.t) (key : string) (route : RouteDefinition) :
  String.eqb key "__proto__" = false ->
  Obj.proto (Obj.set o key route) = Obj.proto o.
Proof. intros H. unfold Obj.set. now rewrite H. Qed.

Lemma set_own_other (o : Obj.t) (key key' : string) (route : RouteDefinition) :
  key <> key' ->
  Obj.own (Obj.set o key route) !! key' = Obj.own o !! key'.
Proof.
  intros H. unfold Obj.set.
  destruct (String.eqb key "__proto__"); [destruct (Obj.own o !! key)|];
    cbn [Obj.own]; try reflexivity; now rewrite lookup_insert_ne.
Qed.

Section set_fold.

Variable keyOf : string * RouteDefinition -> string.

Lemma set_fold_proto (entries : list (string * RouteDefinition)) (o : Obj.t) :
  find (fun entry => String.eqb (keyOf entry) "__proto__") (rev entries) = None ->
  Obj.proto (fold_left (fun o entry => Obj.set o (keyOf entry) (snd entry)) entries o)
  = Obj.proto o.
Proof.
  revert o. induction entries as [|e entries IH]; intros o H; [reflexivity|].
  simpl rev in H. rewrite find_app in H.
  destruct (find (fun entry => String.eqb (keyOf entry) "__proto__") (rev entries)) eqn:E;
    [discriminate|].
  simpl in H. destruct (String.eqb (keyOf e) "__proto__") eqn:Ek; [discriminate|].
  simpl fold_left. rewrite (IH _ eq_refl). now apply set_proto_other.
Qed.

Lemma set_fold_get (entries : list (string * RouteDefinition)) (o : Obj.t) (key : string) :
  Obj.get (fold_left (fun o entry => Obj.set o (keyOf entry) (snd entry)) entries o) key
  = match find (fun entry => String.eqb (keyOf entry) key) (rev entries) with
    | Some entry => Some (Obj.PRoute (snd entry))
    | None =>
        Obj.get {| Obj.own := Obj.own o;
                   Obj.proto := Obj.proto (fold_left
                                  (fun o entry => Obj.set o (keyOf entry) (snd entry))
                                  entries o) |} key
    end.
Proof.
  revert o. induction entries as [|e entries IH]; intros o; [now destruct o|].
  simpl fold_left. rewrite IH. simpl rev. rewrite find_app.
  destruct (find (fun entry => String.eqb (keyOf entry) key) (rev entries)) eqn:E;
    [reflexivity|].
  cbn [find]. destruct (String.eqb_spec (keyOf e) key) as [Hk | Hne].
  - unfold Obj.get at 1. cbn [Obj.own Obj.proto].
    unfold Obj.set at 1.
    destruct (String.eqb (keyOf e) "__proto__") eqn:Ep.
    + destruct (Obj.own o !! keyOf e) eqn:Eo; cbn [Obj.own].
      * now rewrite <- Hk, lookup_insert_eq.
      * rewrite <- Hk, Eo. unfold Obj.fromPrototype. rewrite Ep.
        rewrite set_fold_proto by (apply String.eqb_eq in Ep; now rewrite <- Ep, Hk).
        unfold Obj.set. now rewrite Ep, Eo.
    + cbn [Obj.own]. now rewrite <- Hk, lookup_insert_eq.
  - unfold Obj.get. cbn [Obj.own Obj.proto].
    now rewrite set_own_other.
Qed.

End set_fold.

(** X5. [createRouteRegistry] hands its argument back, never throws and
    leaves the console alone. Afterwards a lookup by name answers with the
    route of the last entry registered under that name, a lookup by path
    with the route of the last entry whose route has that path. Where the
    call registered nothing under the key, the registry answers from the
    properties it held before the call and, failing those, from its
    prototype; and the call leaves the prototype of the name registry alone
    unless an entry is named [__proto__], that of the path registry unless a
    route has the path [__proto__]. *)
Theorem createRouteRegistry_last_wins
    (routes : list (string * RouteDefinition)) (w : World) (name p : string) :
  let w' := snd (Registry.createRouteRegistry routes w) in
  fst (Registry.createRouteRegistry routes w) = Normal routes
  /\ console w' = console w
  /\ Registry.getRouteByName name w'
     = (Normal match lastNamed name routes with
               | Some route => Some (Obj.PRoute route)
               | None => Obj.get {| Obj.own := Obj.own (routeRegistry w);
                                    Obj.proto := Obj.proto (routeRegistry w') |} name
               end, w')
  /\ Registry.getRouteByPath p w'
     = (Normal match lastAtPath p routes with
               | Some route => Some (Obj.PRoute route)
               | None => Obj.get {| Obj.own := Obj.own (pathRegistry w);
                                    Obj.proto := Obj.proto (pathRegistry w') |} p
               end, w')
  /\ (match lastNamed "__proto__" routes with
      | Some _ => True
      | None => Obj.proto (routeRegistry w') = Obj.proto (routeRegistry w)
      end)
  /\ (match lastAtPath "__proto__" routes with
      | Some _ => True
      | None => Obj.proto (pathRegistry w') = Obj.proto (pathRegistry w)
      end).
Proof.
  intros w'. unfold w', Registry.createRouteRegistry, Registry.getRouteByName,
    Registry.getRouteByPath, lastNamed, lastAtPath. cbn [fst snd].
  rewrite register_fold_console, register_fold_routeRegistry,
    register_fold_pathRegistry.
  rewrite (set_fold_get fst), (set_fold_get (fun entry => path (snd entry))).
  split; [reflexivity|]. split; [reflexivity|].
  split; [now destruct (find _ (rev routes))|].
  split; [now destruct (find (fun entry => String.eqb (path (snd entry)) p) (rev routes))|].
  split.
  - destruct (find (fun entry => String.eqb (fst entry) "__proto__") (rev routes)) eqn:E;
      [exact I|]. now apply (set_fold_proto fst).
  - destruct (find (fun entry => String.eqb (path (snd entry)) "__proto__") (rev routes)) eqn:E;
      [exact I|]. now apply (set_fold_proto (fun entry => path (snd entry))).
Qed.

Lemma lastNamed_unique
    (routes : list (string * RouteDefinition)) (name : string) (route : RouteDefinition) :
  distinct (map fst routes) = true ->
  In (name, route) routes ->
  lastNamed name routes = Some route.
Proof.
  unfold lastNamed. induction routes as [|[k r] routes IH]; intros Hd Hin; [destruct Hin|].
  simpl in Hd. apply andb_prop in Hd as [Hk Hd].
  simpl rev. rewrite find_app.
  destruct Hin as [[= -> ->] | Hin].
  - destruct (find (fun entry => String.eqb (fst entry) name) (rev routes))
      as [[k' r']|] eqn:E.
    + apply find_some in E as [Hin' Heq]. simpl in Heq.
      apply String.eqb_eq in Heq. subst k'.
      apply in_rev in Hin'.
      exfalso. apply negb_true_iff in Hk.
      assert (Hinc : Array_includes (map fst routes) name = true).
      { unfold Array_includes. apply existsb_exists. exists name.
        split; [|apply String.eqb_refl].
        change name with (fst (name, r')). now apply in_map. }
      congruence.
    + simpl. now rewrite String.eqb_refl.
  - specialize (IH Hd Hin).
    destruct (find (fun entry => String.eqb (fst entry) name) (rev routes));
      [exact IH | discriminate].
Qed.

(** X6. Registration and lookup round-trip: when the names of the entries
    are pairwise distinct, as the keys of an object are, every entry is found
    again under its name, and a lookup under the path of its route finds a
    route with that path. *)
Theorem createRouteRegistry_roundtrip
    (routes : list (string * RouteDefinition)) (w : World)
    (name : string) (route : RouteDefinition) :
  distinct (map fst routes) = true ->
  In (name, route) routes ->
  let w' := snd (Registry.createRouteRegistry routes w) in
  Registry.getRouteByName name w' = (Normal (Some (Obj.PRoute route)), w')
  /\ exists found,
       Registry.getRouteByPath (path route) w' = (Normal (Some (Obj.PRoute found)), w')
       /\ path found = path route.
Proof.
  intros Hd Hin w'.
  unfold Registry.getRouteByName, Registry.getRouteByPath.
  unfold w', Registry.createRouteRegistry. cbn [snd].
  rewrite register_fold_routeRegistry, register_fold_pathRegistry.
  rewrite (set_fold_get fst), (set_fold_get (fun entry => path (snd entry))).
  split.
  - pose proof (lastNamed_unique routes name route Hd Hin) as Hl.
    unfold lastNamed in Hl.
    destruct (find (fun entry => String.eqb (fst entry) name) (rev routes));
      [|discriminate].
    now injection Hl as ->.
  - destruct (find (fun entry => String.eqb (path (snd entry)) (path route)) (rev routes))
      as [[k r]|] eqn:E.
    + exists r. split; [reflexivity|].
      apply find_some in E as [_ Heq]. now apply String.eqb_eq in Heq.
    + exfalso. apply in_rev in Hin.
      pose proof (find_none _ _ E _ Hin) as Hnone. simpl in Hnone.
      now rewrite String.eqb_refl in Hnone.
Qed.

Lemma createRouteRegistry_roundtrip_witness :
  Registry.getRouteByName "user" registeredWorld
  = (Normal (Some (Obj.PRoute userRoute)), registeredWorld).
Proof.
  exact (proj1 (createRouteRegistry_roundtrip
                  [("about", aboutRoute); ("user", userRoute)] freshWorld
                  "user" userRoute eq_refl (or_intror (or_introl eq_refl)))).
Defined.

(** ** The router instance *)

Lemma find_first_split {A} (f : A -> bool) (l : list A) (x : A) :
  find f l = Some x ->
  f x = true /\ exists before after,
    l = before ++ x :: after /\ forall y, In y before -> f y = false.
Proof.
  induction l as [|y l IH]; [discriminate|].
  simpl. destruct (f y) eqn:E.
  - intros [= <-]. split; [exact E|]. exists [], l. split; [reflexivity|]. intros ? [].
  - intros H. destruct (IH H) as (Hx & before & after & -> & Hbefore).
    split; [exact Hx|]. exists (y :: before), after. split; [reflexivity|].
    intros z [<- | Hz]; [exact E | now apply Hbefore].
Qed.

Lemma getRoute_find (configs : list RouteConfig.t) (p : string) :
  RouterParser.getRoute configs p =
  match find (fun c => String.eqb (RouteConfig.path c) p) configs with
  | Some c => Some {| RouteNode.id := RouteConfig.path c;
                      RouteNode.path := RouteConfig.path c;
                      RouteNode.paramsSchema := RouteConfig.paramsSchema c;
                      RouteNode.searchSchema := RouteConfig.searchSchema c;
                      RouteNode.meta := RouteConfig.meta c;
                      RouteNode.original := c |}
  | None => None
  end.
Proof.
  unfold RouterParser.getRoute, RouterParser.routeNodes, RouterParser.buildRouteTree.
  induction configs as [|c configs IH]; [reflexivity|].
  simpl. destruct (String.eqb (RouteConfig.path c) p); [reflexivity | exact IH].
Qed.

(** X7. [getRoute] of a router instance answers with the first route of the
    configuration that has the path: the node carries that path as its id
    and path, the schemas and meta of that route and the route itself, and no
    route before it has the path. Every path of the configuration is found.
    (The registry of core/registry.ts keeps the last registration instead.) *)
Theorem getRoute_first_match (configs : list RouteConfig.t) (p : string) :
  (forall node,
      RouterParser.getRoute configs p = Some node ->
      RouteNode.id node = p /\ RouteNode.path node = p
      /\ RouteConfig.path (RouteNode.original node) = p
      /\ RouteNode.paramsSchema node = RouteConfig.paramsSchema (RouteNode.original node)
      /\ RouteNode.searchSchema node = RouteConfig.searchSchema (RouteNode.original node)
      /\ RouteNode.meta node = RouteConfig.meta (RouteNode.original node)
      /\ exists before after,
           configs = before ++ RouteNode.original node :: after
           /\ forall c, In c before -> RouteConfig.path c <> p)
  /\ (forall c, In c configs -> RouteConfig.path c = p ->
      exists node, RouterParser.getRoute configs p = Some node).
Proof.
  rewrite getRoute_find. split.
  - intros node Hnode.
    destruct (find (fun c => String.eqb (RouteConfig.path c) p) configs) as [c|] eqn:E;
      [|discriminate].
    injection Hnode as <-. simpl.
    destruct (find_first_split _ _ _ E) as (Hc & before & after & Hsplit & Hbefore).
    apply String.eqb_eq in Hc.
    repeat split; try assumption; try reflexivity.
    exists before, after. split; [exact Hsplit|].
    intros c' Hin Heq. apply Hbefore in Hin. apply String.eqb_neq in Hin. contradiction.
  - intros c Hin Hpath.
    destruct (find (fun c => String.eqb (RouteConfig.path c) p) configs) as [c'|] eqn:E;
      [eauto|].
    exfalso. pose proof (find_none _ _ E _ Hin) as Hnone. simpl in Hnone.
    apply String.eqb_neq in Hnone. contradiction.
Qed.

(** ** Defining a route *)

Lemma filter_negb_none {A} (f : A -> bool) (l : list A) :
  Nat.eqb (length (List.filter (fun x => negb (f x)) l)) 0 = forallb f l.
Proof.
  induction l as [|x l IH]; [reflexivity|].
  simpl. destruct (f x); [exact IH | reflexivity].
Qed.

Lemma app_one_neq {A} (l : list A) (x : A) : l ++ [x] <> l.
Proof.
  intros H. apply (f_equal (@length A)) in H. rewrite length_app in H. simpl in H. lia.
Qed.

Lemma app_two_neq {A} (l : list A) (x y : A) : (l ++ [x]) ++ [y] <> l.
Proof.
  intros H. apply (f_equal (@length A)) in H. rewrite !length_app in H. simpl in H. lia.
Qed.

(** X9. [defineRoute] of the revised route builder never refuses a route:
    it returns the route with the path, the schemas it was given, and both
    registries untouched; its checks only write to the console. It stays
    silent exactly when the route is consistent: without a params schema,
    when the path has no parameter; with a schema whose shape cannot be
    read, always; with a readable shape, when every name of the path is a
    key of the shape and every key is a name of the path. *)
Theorem defineRoute_reports
    (p : string) (given_params : option ParamsSchema) (given_query : option ZodType)
    (w : World) :
  let consistent :=
    match given_params with
    | None => negb (Registry.hasParams (inr p))
    | Some schema =>
        match shape_keys schema with
        | None => true
        | Some keys =>
            forallb (Array_includes keys) (RouteBuilderRegistry.expectedParams p) &&
            forallb (Array_includes (RouteBuilderRegistry.expectedParams p)) keys
        end
    end in
  exists w',
    RouteBuilderRegistry.defineRoute p given_params given_query w
    = (Normal {| path := p;
                 params := match given_params with
                           | Some schema => Some (schema_of schema)
                           | None => None
                           end;
                 query := given_query |}, w')
    /\ routeRegistry w' = routeRegistry w
    /\ pathRegistry w' = pathRegistry w
    /\ (console w' = console w <-> consistent = true).
Proof.
  unfold RouteBuilderRegistry.defineRoute, bind, ret, when, console_warn,
    console_error, log.
  destruct given_params as [[schema [keys|]]|]; cbn [truthy negb andb shape_keys schema_of].
  - rewrite !andb_false_r. cbn iota. rewrite !filter_negb_none.
    destruct (forallb (Array_includes keys) (RouteBuilderRegistry.expectedParams p));
      destruct (forallb (Array_includes (RouteBuilderRegistry.expectedParams p)) keys);
      cbn; eexists; (split; [reflexivity|]); cbn; repeat split; try discriminate;
      intros H; exfalso;
      first [ apply app_one_neq in H | apply app_two_neq in H ]; exact H.
  - rewrite !andb_false_r. cbn. eexists. repeat split.
  - rewrite andb_true_r.
    destruct (Registry.hasParams (inr p)); cbn; eexists;
      (split; [reflexivity|]); cbn; repeat split; try discriminate.
    intros H. exfalso. now apply app_one_neq in H.
Qed.

(** ** The comparisons of the typed pathname *)

Lemma includes_unfold (s pat : string) :
  Str.includes s pat =
  if Str.startsWith s pat then true
  else match s with
       | EmptyString => false
       | String _ s' => Str.includes s' pat
       end.
Proof. destruct s; reflexivity. Qed.

Lemma includes_of_startsWith (s pat : string) :
  Str.startsWith s pat = true -> Str.includes s pat = true.
Proof. intros H. now rewrite includes_unfold, H. Qed.

Lemma startsWith_refl (s : string) : Str.startsWith s s = true.
Proof. apply startsWith_spec. exists "". now rewrite append_nil_r. Qed.

Lemma startsWith_trans (a b c : string) :
  Str.startsWith a b = true -> Str.startsWith b c = true -> Str.startsWith a c = true.
Proof.
  rewrite !startsWith_spec. intros [t ->] [u ->].
  exists (u +:+ t). now rewrite append_assoc.
Qed.

Lemma startsWith_slashed (p r : string) :
  Str.startsWith (withTrailingSlash p) (r +:+ "/") = true ->
  Str.startsWith p r = true.
Proof.
  rewrite !startsWith_spec. unfold withTrailingSlash. intros [t Ht].
  destruct (Str.endsWith p "/").
  - exists ("/" +:+ t). now rewrite Ht, append_assoc.
  - destruct (snoc_cases t) as [-> | (t' & c & ->)].
    + rewrite append_nil_r in Ht. apply snoc_inj in Ht as [-> _].
      exists "". now rewrite append_nil_r.
    + rewrite <- append_assoc in Ht. apply snoc_inj in Ht as [-> _].
      exists ("/" +:+ t'). now rewrite append_assoc.
Qed.

(** X10. The three comparisons of the typed pathname are ordered: a
    pathname that [equals] a route also [startsWith] it and [includes] it;
    and when the route's path has no trailing slash, a pathname that
    [startsWith] the route begins with the route's path as a plain string
    and [includes] it. With a trailing slash on the route this fails:
    /blog starts with the route /blog/ and does not include it. *)
Theorem pathname_comparisons_ordered (pathname : option string) (route : RouteDefinition) :
  (UsePathname.equals pathname route = true ->
   UsePathname.startsWith pathname route = true
   /\ UsePathname.includes pathname route = true)
  /\ (Str.endsWith (path route) "/" = false ->
      UsePathname.startsWith pathname route = true ->
      forall p, pathname = Some p ->
      Str.startsWith p (path route) = true
      /\ UsePathname.includes pathname route = true)
  /\ UsePathname.startsWith (Some "/blog")
       {| path := "/blog/"; params := None; query := None |} = true
  /\ UsePathname.includes (Some "/blog")
       {| path := "/blog/"; params := None; query := None |} = false.
Proof.
  split; [|split; [|split; reflexivity]].
  - destruct pathname as [p|]; [|discriminate].
    unfold UsePathname.equals. intros H. apply String.eqb_eq in H. subst p.
    split.
    + rewrite startsWith_normalised. apply startsWith_refl.
    + unfold UsePathname.includes.
      now rewrite (includes_of_startsWith _ _ (startsWith_refl (path route))).
  - intros Hslash Hstart p ->.
    rewrite startsWith_normalised in Hstart.
    unfold withTrailingSlash at 2 in Hstart. rewrite Hslash in Hstart.
    apply startsWith_slashed in Hstart. split; [exact Hstart|].
    unfold UsePathname.includes. now rewrite (includes_of_startsWith _ _ Hstart).
Qed.

Lemma null_slash_prefix (stem t : string) :
  "null/" = (stem +:+ "/") +:+ t -> stem = "null" /\ t = "".
Proof.
  intros H. destruct (snoc_cases t) as [-> | (t' & c & ->)].
  - rewrite append_nil_r in H.
    change "null/" with ("null" +:+ "/") in H.
    apply snoc_inj in H as [<- _]. now split.
  - exfalso. rewrite <- append_assoc in H.
    change "null/" with ("null" +:+ "/") in H.
    apply snoc_inj in H as [H _].
    apply (f_equal (Str.count "/")) in H.
    rewrite !count_append in H. simpl in H. lia.
Qed.

(** X11. When Next has no pathname ([usePathname] returned null), [equals]
    and [includes] are false for every route, but [startsWith] compares
    against the text "null/": it is true exactly for the routes whose path
    is [null] or [null/]. *)
Theorem null_pathname_comparisons (route : RouteDefinition) :
  UsePathname.equals None route = false
  /\ UsePathname.includes None route = false
  /\ (UsePathname.startsWith None route = true <->
      path route = "null" \/ path route = "null/").
Proof.
  split; [reflexivity|]. split; [reflexivity|].
  unfold UsePathname.startsWith. rewrite orb_false_r. split.
  - rewrite startsWith_spec. intros [t Ht].
    fold (withTrailingSlash (path route)) in Ht.
    destruct (withTrailingSlash_snoc (path route)) as [stem Hstem].
    rewrite Hstem in Ht.
    change ("null" +:+ "/") with "null/" in Ht.
    apply null_slash_prefix in Ht as [-> ->].
    unfold withTrailingSlash in Hstem.
    destruct (Str.endsWith (path route) "/").
    + now right.
    + left. now apply snoc_inj in Hstem as [-> _].
  - intros [-> | ->]; reflexivity.
Qed.

(** X12. [startsWith] nests: every route starts with itself, and when a
    pathname starts with a route whose path, taken as a pathname, starts
    with an outer route, the pathname starts with the outer route. The root
    route, written [/] or as the empty path, is started by the empty
    pathname and by exactly the pathnames that begin with a slash. *)
Theorem startsWith_nests (p : string) (inner outer root : RouteDefinition) :
  UsePathname.startsWith (Some (path inner)) inner = true
  /\ (UsePathname.startsWith (Some p) inner = true ->
      UsePathname.startsWith (Some (path inner)) outer = true ->
      UsePathname.startsWith (Some p) outer = true)
  /\ (path root = "/" \/ path root = "" ->
      UsePathname.startsWith (Some p) root
      = match p with
        | EmptyString => true
        | _ => Str.startsWith p "/"
        end).
Proof.
  rewrite !startsWith_normalised. split; [apply startsWith_refl|]. split.
  - apply startsWith_trans.
  - intros Hroot.
    assert (Hnorm : withTrailingSlash (path root) = "/") by (destruct Hroot as [-> | ->]; reflexivity).
    rewrite Hnorm. unfold withTrailingSlash.
    destruct p as [|c p]; [reflexivity|].
    destruct (Str.endsWith (String c p) "/"); reflexivity.
Qed.

(** ** How the generators relate *)

(** X13. The deprecated [generateUrl] of the route builder and the
    registry's [generateUrl] complete in the same way on every route: with
    the same URL, or by throwing the same error. They differ only in what
    they write to the console, and neither touches the registries. *)
Theorem deprecated_generateUrl_same_outcome
    (route : RouteDefinition) (options : Options) (w : World) :
  fst (RouteBuilderRegistry.generateUrl route options w)
  = fst (Registry.generateUrl (inl route) options w)
  /\ routeRegistry (snd (RouteBuilderRegistry.generateUrl route options w))
     = routeRegistry w
  /\ pathRegistry (snd (RouteBuilderRegistry.generateUrl route options w))
     = pathRegistry w
  /\ routeRegistry (snd (Registry.generateUrl (inl route) options w)) = routeRegistry w
  /\ pathRegistry (snd (Registry.generateUrl (inl route) options w)) = pathRegistry w.
Proof.
  destruct options as [ps q].
  repeat split; run_monad; split_cases; reflexivity.
Qed.

(** X14. A bare string target is never a reason to throw. [Link] with a
    string [href] always hands [NextLink] the URL that [getPath] builds from
    the raw values, whatever the registry holds and whatever the schemas of
    the registered route say; it leaves the registries alone and writes at
    most two console entries, none at all when the [href] finds no route
    in the registry and params are supplied. The registry's [generateUrl] on a bare path does
    not even look the path up. *)
Theorem string_target_never_throws
    (href : string) (given_params given_query : option object) (w : World) :
  (exists w' entries,
      LinkComponent.Link (inr href) given_params given_query w
      = (Normal (RouterParser.getPath href given_params given_query), w')
      /\ routeRegistry w' = routeRegistry w
      /\ pathRegistry w' = pathRegistry w
      /\ console w' = console w ++ entries
      /\ length entries <= 2
      /\ ((forall route, Obj.get (pathRegistry w) href <> Some (Obj.PRoute route)) ->
          truthy given_params = true -> entries = []))
  /\ (exists w',
        Registry.generateUrl (inr href)
          {| opt_params := given_params; opt_query := given_query |} w
        = (Normal (RouterParser.getPath href given_params given_query), w')
        /\ routeRegistry w' = routeRegistry w
        /\ pathRegistry w' = pathRegistry w).
Proof.
  split.
  - unfold RouterParser.getPath. run_monad. split_cases;
      eexists _, _; (split; [reflexivity|]); cbn;
      (split; [reflexivity|]); (split; [reflexivity|]);
      rewrite <- ?app_assoc;
      first [ split; [reflexivity|]
            | split; [symmetry; apply app_nil_r|] ];
      cbn; (split; [lia|]); intros; try discriminate; try reflexivity;
      match goal with
      | H : _ && negb (truthy (Some _)) = true |- _ =>
          cbn in H; rewrite andb_false_r in H; discriminate H
      | H : forall route, _ <> _ |- _ => exfalso; eapply H; reflexivity
      end.
  - unfold RouterParser.getPath. run_monad. split_cases;
      eexists; repeat split.
Qed.

(** X15. Validation only gates. When the route's schemas accept the
    supplied params and query, the registry's [generateUrl], the deprecated
    one and [Link] return the URL built from the values as supplied and
    leave the world as it was: what the schema parsed, coerced or defaulted
    never reaches the URL, and nothing is written to the console. *)
Theorem accepted_values_pass_silently
    (route : RouteDefinition) (ps : object) (q : option object)
    (href : string) (w : World) :
  accepted (params route) (Some ps) = true ->
  accepted (query route) q = true ->
  Registry.generateUrl (inl route) {| opt_params := Some ps; opt_query := q |} w
  = (Normal (addQuery (replaceParams (path route) ps) q), w)
  /\ RouteBuilderRegistry.generateUrl route {| opt_params := Some ps; opt_query := q |} w
     = (Normal (addQuery (replaceParams (path route) ps) q), w)
  /\ LinkComponent.Link (inl route) (Some ps) q w
     = (Normal (addQuery (replaceParams (path route) ps) q), w)
  /\ (Obj.get (pathRegistry w) href = Some (Obj.PRoute route) ->
      LinkComponent.Link (inr href) (Some ps) q w
      = (Normal (addQuery (replaceParams href ps) q), w)).
Proof.
  unfold accepted. intros Hps Hq.
  repeat split; try intros Hreg; unfold LinkComponent.Link; run_monad;
    rewrite ?Hreg; simpl;
    destruct (params route) as [pschema|];
    destruct (query route) as [qschema|];
    destruct q as [qs|]; simpl;
    repeat match goal with
           | H : context [safeParse ?s ?v] |- _ => destruct (safeParse s v)
           end;
    try discriminate; simpl; rewrite ?andb_false_r; reflexivity.
Qed.

Lemma accepted_values_pass_silently_witness :
  Registry.generateUrl (inl userRoute)
    {| opt_params := Some [("id", VString "42")];
       opt_query := Some [("tab", VString "settings")] |}
    registeredWorld
  = (Normal "/user/42?tab=settings", registeredWorld).
Proof.
  exact (proj1 (accepted_values_pass_silently userRoute
                  [("id", VString "42")] (Some [("tab", VString "settings")])
                  "/user/:id" registeredWorld eq_refl eq_refl)).
Defined.

(** ** The query string can be read back *)

Lemma decode_head_encode_byte (c : ascii) (rest : string) :
  decode_head (URLSearchParams.encode_byte c +:+ rest) = Some (c, rest).
Proof. destruct c as [[] [] [] [] [] [] [] []]; reflexivity. Qed.

Lemma encode_inj (a b : string) :
  URLSearchParams.encode a = URLSearchParams.encode b -> a = b.
Proof.
  revert b. induction a as [|c a IH]; intros [|d b] H.
  - reflexivity.
  - apply (f_equal decode_head) in H. simpl URLSearchParams.encode in H.
    rewrite decode_head_encode_byte in H. discriminate.
  - apply (f_equal decode_head) in H. simpl URLSearchParams.encode in H.
    rewrite decode_head_encode_byte in H. discriminate.
  - apply (f_equal decode_head) in H. simpl URLSearchParams.encode in H.
    rewrite !decode_head_encode_byte in H. injection H as -> H.
    f_equal. now apply IH.
Qed.

Lemma encode_byte_encodedChar (c : ascii) :
  allChars encodedChar (URLSearchParams.encode_byte c) = true.
Proof. destruct c as [[] [] [] [] [] [] [] []]; vm_compute; reflexivity. Qed.

Lemma encode_encodedChar (s : string) :
  allChars encodedChar (URLSearchParams.encode s) = true.
Proof.
  induction s as [|c s IH]; simpl; [reflexivity|].
  now rewrite allChars_append, encode_byte_encodedChar, IH.
Qed.

Lemma encode_free (x : ascii) (s : string) :
  encodedChar x = false -> Str.count x (URLSearchParams.encode s) = 0.
Proof.
  intros Hx. apply (allChars_count encodedChar); [apply encode_encodedChar | exact Hx].
Qed.

(** Two texts without the character [x], each followed by nothing or by
    [x] and more: equal wholes have equal parts. *)
Lemma split_at_separator (x : ascii) (a a' t t' : string) :
  Str.count x a = 0 -> Str.count x a' = 0 ->
  t = "" \/ (exists r, t = String x r) ->
  t' = "" \/ (exists r, t' = String x r) ->
  a +:+ t = a' +:+ t' -> a = a' /\ t = t'.
Proof.
  revert a'. induction a as [|c a IH]; intros [|c' a'] Ha Ha' Ht Ht' H;
    norm_append.
  - now split.
  - exfalso. rewrite count_cons in Ha'.
    destruct Ht as [-> | [r ->]]; [discriminate|].
    injection H as -> _. rewrite Ascii.eqb_refl in Ha'. discriminate.
  - exfalso. rewrite count_cons in Ha.
    destruct Ht' as [-> | [r ->]]; [discriminate|].
    injection H as -> _. rewrite Ascii.eqb_refl in Ha. discriminate.
  - injection H as -> H. rewrite count_cons in Ha, Ha'.
    destruct (IH a') as [-> ->]; try assumption; try lia.
    now split.
Qed.

Lemma serialise_cons (kv : string * string) (pairs : list (string * string)) :
  serialise (kv :: pairs) =
  URLSearchParams.encode (fst kv) +:+
  String "=" (URLSearchParams.encode (snd kv) +:+
              match pairs with
              | [] => ""
              | _ => String "&" (serialise pairs)
              end).
Proof.
  unfold serialise. destruct pairs as [|kv' pairs].
  - simpl. now rewrite append_nil_r.
  - change (URLSearchParams.join "&"
              (map (fun kv => URLSearchParams.encode (fst kv) +:+ "=" +:+
                              URLSearchParams.encode (snd kv)) (kv :: kv' :: pairs)))
      with ((URLSearchParams.encode (fst kv) +:+ "=" +:+ URLSearchParams.encode (snd kv))
            +:+ "&" +:+
            URLSearchParams.join "&"
              (map (fun kv => URLSearchParams.encode (fst kv) +:+ "=" +:+
                              URLSearchParams.encode (snd kv)) (kv' :: pairs))).
    now rewrite !append_assoc.
Qed.

Lemma serialise_inj (l1 l2 : list (string * string)) :
  serialise l1 = serialise l2 -> l1 = l2.
Proof.
  revert l2. induction l1 as [|[k1 v1] l1 IH]; intros [|[k2 v2] l2] H.
  - reflexivity.
  - destruct (serialise_cons_nonempty (k2, v2) l2) as (c & s & Hs).
    rewrite Hs in H. discriminate.
  - destruct (serialise_cons_nonempty (k1, v1) l1) as (c & s & Hs).
    rewrite Hs in H. discriminate.
  - rewrite !serialise_cons in H. cbn [fst snd] in H.
    apply (split_at_separator "=" _ _ _ _
             (encode_free "=" k1 eq_refl) (encode_free "=" k2 eq_refl)
             (or_intror (ex_intro _ _ eq_refl)) (or_intror (ex_intro _ _ eq_refl)))
      in H as [Hk H].
    injection H as H.
    assert (T1 : match l1 with
                 | [] => ""
                 | _ => String "&" (serialise l1)
                 end = "" \/
                 exists r, match l1 with
                           | [] => ""
                           | _ => String "&" (serialise l1)
                           end = String "&" r)
      by (destruct l1; [now left | right; eauto]).
    assert (T2 : match l2 with
                 | [] => ""
                 | _ => String "&" (serialise l2)
                 end = "" \/
                 exists r, match l2 with
                           | [] => ""
                           | _ => String "&" (serialise l2)
                           end = String "&" r)
      by (destruct l2; [now left | right; eauto]).
    apply (split_at_separator "&" _ _ _ _
             (encode_free "&" v1 eq_refl) (encode_free "&" v2 eq_refl) T1 T2)
      in H as [Hv H].
    apply encode_inj in Hk, Hv. subst k2 v2. f_equal.
    destruct l1 as [|p1 l1], l2 as [|p2 l2]; try discriminate; [reflexivity|].
    injection H as H. now apply IH.
Qed.

(** X16. The query string determines the query. Two query objects that
    give the same URL on the same path have the same defined entries, keys
    and values after [String()], in the same order: an ampersand, an equals
    sign or a percent sign inside a key or a value cannot pass for a
    separator or add a pair. *)
Theorem query_string_is_unambiguous
    (route : RouteDefinition) (url : string) (given_params q1 q2 : option object) :
  (addQuery url q1 = addQuery url q2 -> presentOf q1 = presentOf q2)
  /\ (RouteBuilder.generateUrl route {| opt_params := given_params; opt_query := q1 |}
      = RouteBuilder.generateUrl route {| opt_params := given_params; opt_query := q2 |} ->
      presentOf q1 = presentOf q2)
  /\ (RouterParser.getPath url given_params q1 = RouterParser.getPath url given_params q2 ->
      presentOf q1 = presentOf q2).
Proof.
  assert (Hadd : forall u, addQuery u q1 = addQuery u q2 -> presentOf q1 = presentOf q2).
  { intros u. rewrite !addQuery_spec. intros H. apply append_inv_head in H.
    destruct (presentOf q1) as [|p1 l1] eqn:E1, (presentOf q2) as [|p2 l2] eqn:E2;
      try discriminate; [reflexivity|].
    injection H as H. now apply serialise_inj. }
  split; [apply Hadd|]. split.
  - unfold RouteBuilder.generateUrl. cbn [opt_params opt_query]. apply Hadd.
  - unfold RouterParser.getPath. apply Hadd.
Qed.

Lemma encode_unreserved (s : string) :
  allChars URLSearchParams.unreserved s = true -> URLSearchParams.encode s = s.
Proof.
  induction s as [|c s IH]; [reflexivity|].
  cbn [allChars]. intros H. apply andb_prop in H as [Hc Hs].
  cbn [URLSearchParams.encode]. unfold URLSearchParams.encode_byte.
  rewrite Hc, (IH Hs). reflexivity.
Qed.

(** X17. Keys and values made of ASCII letters, digits and the characters
    [*], [-], [.] and [_] reach the URL as they are: the query string is
    then the defined entries written [key=value] and joined by ampersands. *)
Theorem plain_query_is_verbatim (url : string) (q : option object) :
  forallb (fun kv => allChars URLSearchParams.unreserved (fst kv) &&
                     allChars URLSearchParams.unreserved (snd kv)) (presentOf q) = true ->
  addQuery url q =
  url +:+ match presentOf q with
          | [] => ""
          | _ => "?" +:+ Array_join (map (fun kv => fst kv +:+ "=" +:+ snd kv)
                                         (presentOf q)) "&"
          end.
Proof.
  intros H. rewrite addQuery_spec. f_equal.
  destruct (presentOf q) as [|kv pairs] eqn:E; [reflexivity|].
  f_equal. unfold serialise, Array_join. f_equal.
  rewrite <- E in *. clear E.
  induction (presentOf q) as [|[k v] l IH]; [reflexivity|].
  cbn [forallb fst snd] in H. apply andb_prop in H as [Hkv Hl].
  apply andb_prop in Hkv as [Hk Hv].
  cbn [map fst snd]. now rewrite (encode_unreserved k Hk), (encode_unreserved v Hv), IH.
Qed.

Lemma plain_query_is_verbatim_witness :
  addQuery "/list" (Some [("page", VNumber (Finite false 2 1)); ("sort", VString "asc")])
  = "/list?page=2&sort=asc".
Proof.
  exact (plain_query_is_verbatim "/list"
           (Some [("page", VNumber (Finite false 2 1)); ("sort", VString "asc")])
           eq_refl).
Defined.

(** ** When generation throws *)

(** X18. The registry's [generateUrl] on a route definition returns a URL
    exactly when the params schema accepts the supplied params and the query
    schema accepts the supplied query (a missing schema or a missing object
    counts as accepted). What it throws is always the schema's [ZodError],
    the one of the params when both fail; the plain error of
    [validateParams] for a route with parameters and no schema is never
    thrown from here, because validation is skipped without a schema. *)
Theorem generateUrl_throws_iff_rejected
    (route : RouteDefinition) (options : Options) (w : World) :
  ((exists url, fst (Registry.generateUrl (inl route) options w) = Normal url) <->
   accepted (params route) (opt_params options) &&
   accepted (query route) (opt_query options) = true)
  /\ (forall e,
        fst (Registry.generateUrl (inl route) options w) = Throw e ->
        exists issues, e = ZodError issues)
  /\ (forall schema ps issues,
        params route = Some schema -> opt_params options = Some ps ->
        safeParse schema (VObject ps) = SafeParseError issues ->
        fst (Registry.generateUrl (inl route) options w) = Throw (ZodError issues)).
Proof.
  destruct options as [ps q]. cbn [opt_params opt_query]. unfold accepted.
  split; [|split].
  - run_monad. split_cases; cbn; split; intros H;
      try discriminate; try reflexivity; try (destruct H; discriminate); eauto.
  - intros e. run_monad. split_cases; cbn; intros [= <-]; eauto.
  - intros schema ps' issues Hs -> He. run_monad. rewrite Hs. simpl. rewrite He.
    reflexivity.
Qed.

(** ** Question marks in a generated URL *)

Lemma search_spec (s pat before after : string) :
  Str.search s pat = Some (before, after) -> s = before +:+ pat +:+ after.
Proof.
  revert before after. induction s as [|c s IH]; intros before after;
    rewrite search_unfold.
  - destruct (Str.startsWith "" pat) eqn:E; [|discriminate].
    intros [= <- <-]. apply startsWith_spec in E as [t Ht].
    rewrite append_nil_l. rewrite Ht at 2. now rewrite drop_append.
  - destruct (Str.startsWith (String c s) pat) eqn:E.
    + intros [= <- <-]. apply startsWith_spec in E as [t Ht].
      rewrite append_nil_l. rewrite Ht at 2. now rewrite drop_append.
    + destruct (Str.search s pat) as [[b a]|] eqn:Es; [|discriminate].
      intros [= <- <-]. rewrite append_cons. f_equal. now apply IH.
Qed.

Lemma GetSubstitution_dollar (matched before after : string) (d : ascii) (rest : string) :
  Str.GetSubstitution matched before after (String "$" (String d rest))
  = if Ascii.eqb d "$" then
      String "$" (Str.GetSubstitution matched before after rest)
    else if Ascii.eqb d "&" then
      matched +:+ Str.GetSubstitution matched before after rest
    else if Ascii.eqb d "`" then
      before +:+ Str.GetSubstitution matched before after rest
    else if Ascii.eqb d "'" then
      after +:+ Str.GetSubstitution matched before after rest
    else
      String "$" (String d (Str.GetSubstitution matched before after rest)).
Proof. reflexivity. Qed.

(** A character that occurs neither in the match, nor around it, nor in the
    replacement text does not occur in the substitution. *)
Lemma count_GetSubstitution (x : ascii) (matched before after v : string) :
  Str.count x matched = 0 -> Str.count x before = 0 -> Str.count x after = 0 ->
  Str.count x v = 0 ->
  Str.count x (Str.GetSubstitution matched before after v) = 0.
Proof.
  intros Hm Hb Ha.
  enough (H : (Str.count x v = 0 ->
               Str.count x (Str.GetSubstitution matched before after v) = 0)
              /\ forall c, Str.count x (String c v) = 0 ->
                   Str.count x (Str.GetSubstitution matched before after (String c v)) = 0)
    by apply H.
  induction v as [|d v [IH1 IH2]].
  - split; [reflexivity|]. intros c Hc.
    destruct (Ascii.eqb c "$") eqn:E.
    + apply Ascii.eqb_eq in E. subst c. exact Hc.
    + rewrite GetSubstitution_literal by exact E. exact Hc.
  - split; [apply IH2|]. intros c Hc.
    rewrite count_cons in Hc.
    assert (Hxc : Ascii.eqb x c = false) by (destruct (Ascii.eqb x c); [discriminate | reflexivity]).
    rewrite Hxc in Hc. rewrite Nat.add_0_l in Hc.
    destruct (Ascii.eqb c "$") eqn:E.
    + apply Ascii.eqb_eq in E. subst c. rewrite GetSubstitution_dollar.
      pose proof Hc as Hdv. rewrite count_cons in Hdv.
      assert (Hxd : Ascii.eqb x d = false)
        by (destruct (Ascii.eqb x d); [discriminate | reflexivity]).
      rewrite Hxd in Hdv. rewrite Nat.add_0_l in Hdv.
      specialize (IH1 Hdv).
      destruct (Ascii.eqb d "$"); [now rewrite count_cons, Hxc|].
      destruct (Ascii.eqb d "&"); [now rewrite count_append, Hm|].
      destruct (Ascii.eqb d "`"); [now rewrite count_append, Hb|].
      destruct (Ascii.eqb d "'"); [now rewrite count_append, Ha|].
      now rewrite !count_cons, Hxc, Hxd.
    + rewrite GetSubstitution_literal by exact E.
      rewrite count_cons, Hxc, Nat.add_0_l. now apply IH2.
Qed.

Lemma count_replace (x : ascii) (s pat v : string) :
  Str.count x s = 0 -> Str.count x v = 0 -> Str.count x (Str.replace s pat v) = 0.
Proof.
  intros Hs Hv. unfold Str.replace.
  destruct (Str.search s pat) as [[before after]|] eqn:E; [|exact Hs].
  apply search_spec in E. rewrite E in Hs. rewrite !count_append in Hs.
  rewrite !count_append.
  rewrite count_GetSubstitution by (try exact Hv; lia). lia.
Qed.

Lemma count_replaceParams (x : ascii) (p : string) (ps : object) :
  Str.count x p = 0 ->
  (forall entry, In entry ps -> Str.count x (ToString (snd entry)) = 0) ->
  Str.count x (replaceParams p ps) = 0.
Proof.
  unfold replaceParams. revert p. induction ps as [|e ps IH]; intros p Hp Hps; [exact Hp|].
  simpl fold_left. apply IH.
  - apply count_replace; [exact Hp | apply Hps; now left].
  - intros entry Hin. apply Hps. now right.
Qed.

Lemma count_populated (x : ascii) (p : string) (given_params : option object) :
  Str.count x p = 0 ->
  (forall ps entry, given_params = Some ps -> In entry ps ->
                    Str.count x (ToString (snd entry)) = 0) ->
  Str.count x (populated p given_params) = 0.
Proof.
  intros Hp Hps. destruct given_params as [ps|]; [|exact Hp].
  apply count_replaceParams; [exact Hp|]. intros entry Hin. now apply (Hps ps).
Qed.

Lemma escape_digits (c : ascii) :
  upperHex (URLSearchParams.hex_digit (N_of_ascii c / 16)) = true
  /\ upperHex (URLSearchParams.hex_digit (N_of_ascii c mod 16)) = true
  /\ (16 * hex_value (URLSearchParams.hex_digit (N_of_ascii c / 16))
      + hex_value (URLSearchParams.hex_digit (N_of_ascii c mod 16)))%N = N_of_ascii c.
Proof. destruct c as [[] [] [] [] [] [] [] []]; vm_compute; repeat split. Qed.

Lemma encode_byte_cases (c : ascii) :
  (URLSearchParams.unreserved c = true -> URLSearchParams.encode_byte c = String c "")
  /\ (c = " "%char -> URLSearchParams.encode_byte c = "+")
  /\ (URLSearchParams.unreserved c = false -> c <> " "%char ->
      exists h l,
        URLSearchParams.encode_byte c = String "%" (String h (String l ""))
        /\ upperHex h = true /\ upperHex l = true
        /\ (16 * hex_value h + hex_value l)%N = N_of_ascii c).
Proof.
  split; [|split].
  - intros H. unfold URLSearchParams.encode_byte. now rewrite H.
  - intros ->. reflexivity.
  - intros Hu Hs. unfold URLSearchParams.encode_byte. rewrite Hu.
    destruct (Ascii.eqb_spec c " ") as [E | _]; [contradiction|].
    eexists _, _. split; [reflexivity|]. apply escape_digits.
Qed.

(** The claim C6 fails in its last part: a question mark inside a parameter
    value reaches the URL, query or no query. *)
Lemma question_mark_without_query :
  RouteBuilder.generateUrl {| path := "/search/:term"; params := None; query := None |}
    {| opt_params := Some [("term", VString "why?")]; opt_query := None |}
  = "/search/why?"
  /\ RouteBuilder.generateUrl {| path := "/search/:term"; params := None; query := None |}
       {| opt_params := Some [("term", VString "why?")];
          opt_query := Some [("page", VUndefined)] |}
     = "/search/why?"
  /\ RouterParser.getPath "/search/:term" (Some [("term", VString "why?")]) None
     = "/search/why?"
  /\ Str.count "?" "/search/why?" = 1.
Proof. repeat split. Qed.

(** C6, as the code has it. Query-string assembly, in [generateUrl] and in
    [getPath]. The URL is the populated path followed, when a defined entry
    remains, by one question mark and the entries [name=value] joined by
    ampersands. Entries whose value is undefined are left out; every other
    value goes through [String()] (a string as it is, a boolean as [true] or
    [false], a number in decimal, null as [null]) and, like its key, through
    the encoding of the serialiser: an ASCII letter, a digit or one of
    [*-._] stays, a space becomes a plus sign, every other byte becomes a
    percent sign and the two upper-case hexadecimal digits of its code, so
    that each byte can be read back. The query string holds no question
    mark; the URL holds those of the populated path and one more exactly
    when a pair remains. With an absent query, or one whose values are all
    undefined, the URL is the populated path; it holds no question mark
    when neither the path nor a parameter value, after [String()], holds
    one. *)
Theorem query_assembly_exact
    (route : RouteDefinition) (p : string) (given_params q : option object) :
  let pairs := presentOf q in
  let suffix := match pairs with
                | [] => ""
                | _ => "?" +:+ serialise pairs
                end in
  let url := RouteBuilder.generateUrl route
               {| opt_params := given_params; opt_query := q |} in
  url = populated (path route) given_params +:+ suffix
  /\ RouterParser.getPath p given_params q = populated p given_params +:+ suffix
  /\ (forall (k s : string),
        addQuery p (Some [(k, VString s)])
        = p +:+ "?" +:+ URLSearchParams.encode k +:+ "=" +:+ URLSearchParams.encode s)
  /\ (forall (k : string) (b : bool) (rest : object),
        present ((k, VUndefined) :: rest) = present rest
        /\ present ((k, VBoolean b) :: rest)
           = (k, if b then "true" else "false") :: present rest
        /\ present ((k, VNull) :: rest) = (k, "null") :: present rest)
  /\ RouteBuilder.generateUrl {| path := "/search"; params := None; query := None |}
       {| opt_params := None;
          opt_query := Some [("q", VString "a b&c=d/e?");
                             ("page", VNumber (Finite false 2 1));
                             ("ratio", VNumber (Finite true 15 1));
                             ("skip", VUndefined);
                             ("exact", VBoolean true);
                             ("tag", VString "100%")] |}
     = "/search?q=a+b%26c%3Dd%2Fe%3F&page=2&ratio=-1.5&exact=true&tag=100%25"
  /\ (forall (c : ascii) (rest : string),
        decode_head (URLSearchParams.encode_byte c +:+ rest) = Some (c, rest))
  /\ (forall c : ascii,
        (URLSearchParams.unreserved c = true ->
         URLSearchParams.encode_byte c = String c "")
        /\ (c = " "%char -> URLSearchParams.encode_byte c = "+")
        /\ (URLSearchParams.unreserved c = false -> c <> " "%char ->
            exists h l,
              URLSearchParams.encode_byte c = String "%" (String h (String l ""))
              /\ upperHex h = true /\ upperHex l = true
              /\ (16 * hex_value h + hex_value l)%N = N_of_ascii c))
  /\ (forall kv, In kv pairs ->
        allChars encodedChar (URLSearchParams.encode (fst kv)) = true
        /\ allChars encodedChar (URLSearchParams.encode (snd kv)) = true)
  /\ Str.count "?" (serialise pairs) = 0
  /\ Str.count "?" url =
     Str.count "?" (populated (path route) given_params) +
     match pairs with
     | [] => 0
     | _ => 1
     end
  /\ Str.count "?" (RouterParser.getPath p given_params q) =
     Str.count "?" (populated p given_params) +
     match pairs with
     | [] => 0
     | _ => 1
     end
  /\ (forall entries,
        q = None \/ (q = Some entries /\ forall e, In e entries -> snd e = VUndefined) ->
        url = populated (path route) given_params
        /\ RouterParser.getPath p given_params q = populated p given_params)
  /\ (Str.count "?" (path route) = 0 ->
      (forall ps entry, given_params = Some ps -> In entry ps ->
                        Str.count "?" (ToString (snd entry)) = 0) ->
      Str.count "?" url = match pairs with
                          | [] => 0
                          | _ => 1
                          end)
  /\ (Str.count "?" p = 0 ->
      (forall ps entry, given_params = Some ps -> In entry ps ->
                        Str.count "?" (ToString (snd entry)) = 0) ->
      Str.count "?" (RouterParser.getPath p given_params q)
      = match pairs with
        | [] => 0
        | _ => 1
        end).
Proof.
  intros pairs suffix url.
  assert (Hurl : url = populated (path route) given_params +:+ suffix).
  { unfold url, RouteBuilder.generateUrl. simpl. rewrite addQuery_spec.
    unfold populated. now destruct given_params. }
  assert (Hget : RouterParser.getPath p given_params q
                 = populated p given_params +:+ suffix).
  { unfold RouterParser.getPath. rewrite addQuery_spec.
    unfold populated. now destruct given_params. }
  assert (Hcu : Str.count "?" url =
                Str.count "?" (populated (path route) given_params) +
                match pairs with [] => 0 | _ => 1 end)
    by (rewrite Hurl, count_append; unfold suffix; now rewrite count_suffix).
  assert (Hcg : Str.count "?" (RouterParser.getPath p given_params q) =
                Str.count "?" (populated p given_params) +
                match pairs with [] => 0 | _ => 1 end)
    by (rewrite Hget, count_append; unfold suffix; now rewrite count_suffix).
  split; [exact Hurl|]. split; [exact Hget|].
  split.
  { intros k s. rewrite addQuery_spec. cbn [presentOf present List.filter map fst snd
      isDefined ToString]. unfold serialise. cbn [map URLSearchParams.join fst snd].
    reflexivity. }
  split; [intros k b rest; repeat split|].
  split; [vm_compute; reflexivity|].
  split; [apply decode_head_encode_byte|].
  split; [apply encode_byte_cases|].
  split; [intros kv _; split; apply encode_encodedChar|].
  split; [apply (allChars_count queryChar); [apply serialise_queryChar | reflexivity]|].
  split; [exact Hcu|]. split; [exact Hcg|].
  split.
  { intros entries Hq.
    assert (Hp : pairs = []).
    { unfold pairs. destruct Hq as [-> | [-> Hundef]]; [reflexivity|].
      cbn [presentOf]. now apply present_all_undefined. }
    rewrite Hurl, Hget. unfold suffix. rewrite Hp. now rewrite !append_nil_r. }
  split.
  - intros Hp Hps. rewrite Hcu. now rewrite (count_populated "?" _ _ Hp Hps).
  - intros Hp Hps. rewrite Hcg. now rewrite (count_populated "?" _ _ Hp Hps).
Qed.

(** ** The hooks of the router instance, with and without a router *)






(** ** Lookups that find nothing *)



(** Paths begin with a slash, and no inherited name does. *)
Lemma slash_key_ordinary (p : string) :
  Str.startsWith p "/" = true -> ordinaryKey p = true.
Proof.
  destruct p as [|c p]; [discriminate|].
  change (Str.startsWith (String c p) "/") with (if Ascii.eqb "/" c then true else false).
  destruct (Ascii.eqb_spec "/" c) as [<- | _]; [|discriminate].
  reflexivity.
Qed.




(** ** Names every object inherits *)

Lemma inherited_member (name : string) :
  In name Obj.prototypeMembers -> Obj.inherited name = Some (Obj.PPrototypeMember name).
Proof.
  intros Hin. unfold Obj.inherited.
  assert (H : existsb (String.eqb name) Obj.prototypeMembers = true).
  { apply existsb_exists. exists name. split; [exact Hin | apply String.eqb_refl]. }
  now rewrite H.
Qed.

Lemma prototypeMember_not_proto (name : string) :
  In name Obj.prototypeMembers -> String.eqb name "__proto__" = false.
Proof.
  unfold Obj.prototypeMembers. cbn [In].
  intros H. repeat (destruct H as [<- | H]; [reflexivity|]). destruct H.
Qed.

(** X20. The registries and the provided routes are plain objects, so a
    lookup also finds what they inherit. For a member of [Object.prototype]
    such as [constructor] or [toString] that was never registered, as long
    as no route was registered under [__proto__], [getRouteByName] and
    [getRouteByPath] answer with the inherited member, not with undefined,
    and [useRoute] returns it instead of throwing; a bare-path [Link] to such
    a name reads that member, validates nothing and logs nothing. Registering
    a route under the name [__proto__] adds no entry: the route becomes the
    prototype of the registry, and a lookup of [path] then answers with the
    path of that route. *)
Theorem inherited_names_are_found
    (name : string) (w : World) (provided : Obj.t) (route : RouteDefinition)
    (given_params given_query : option object) :
  In name Obj.prototypeMembers ->
  Obj.own (routeRegistry w) !! name = None ->
  Obj.own (pathRegistry w) !! name = None ->
  Obj.proto (routeRegistry w) = None ->
  Obj.proto (pathRegistry w) = None ->
  Obj.own provided !! name = None ->
  Obj.proto provided = None ->
  Registry.getRouteByName name w = (Normal (Some (Obj.PPrototypeMember name)), w)
  /\ Registry.getRouteByPath name w = (Normal (Some (Obj.PPrototypeMember name)), w)
  /\ RouteProvider.useRoute (Some provided) name
     = Normal (Some (Obj.PPrototypeMember name))
  /\ LinkComponent.Link (inr name) given_params given_query w
     = (Normal (RouterParser.getPath name given_params given_query), w)
  /\ (Obj.own (routeRegistry w) !! "__proto__" = None ->
      let w' := snd (Registry.createRouteRegistry [("__proto__", route)] w) in
      Obj.own (routeRegistry w') = Obj.own (routeRegistry w)
      /\ Registry.getRouteByName "__proto__" w' = (Normal (Some (Obj.PRoute route)), w')
      /\ (Obj.own (routeRegistry w) !! "path" = None ->
          Registry.getRouteByName "path" w' = (Normal (Some (Obj.PPath (path route))), w'))).
Proof.
  intros Hin Hown Hownp Hproto Hprotop Hprov Hprovp.
  pose proof (inherited_member name Hin) as Hinh.
  pose proof (prototypeMember_not_proto name Hin) as Hne.
  assert (Hget : forall o, Obj.own o !! name = None -> Obj.proto o = None ->
                           Obj.get o name = Some (Obj.PPrototypeMember name)).
  { intros o Ho Hp. unfold Obj.get, Obj.fromPrototype. now rewrite Ho, Hne, Hp. }
  assert (Hslash : Registry.hasParams (inr name) = false).
  { unfold Obj.prototypeMembers in Hin. cbn [In] in Hin.
    repeat (destruct Hin as [<- | Hin]; [reflexivity|]). destruct Hin. }
  split; [|split; [|split; [|split]]].
  - unfold Registry.getRouteByName. now rewrite Hget.
  - unfold Registry.getRouteByPath. now rewrite Hget.
  - unfold RouteProvider.useRoute, RouteProvider.useRoutes, Obj.has.
    now rewrite Hget.
  - unfold LinkComponent.Link, RouterParser.getPath, Registry.getRouteByPath, bind, ret, when.
    cbn [fst snd]. rewrite (Hget _ Hownp Hprotop). cbn [Obj.truthy].
    rewrite Hslash. cbn [andb]. reflexivity.
  - intros Hp w'. unfold w', Registry.createRouteRegistry, Registry.getRouteByName.
    cbn [snd fold_left Registry.register routeRegistry fst].
    unfold Obj.set. rewrite String.eqb_refl, Hp.
    unfold Obj.get. cbn [Obj.own Obj.proto].
    split; [reflexivity|]. split.
    + rewrite Hp. reflexivity.
    + intros Hpath. rewrite Hpath. reflexivity.
Qed.

Lemma inherited_names_are_found_witness :
  Registry.getRouteByName "constructor" registeredWorld
  = (Normal (Some (Obj.PPrototypeMember "constructor")), registeredWorld).
Proof.
  refine (proj1 (inherited_names_are_found "constructor" registeredWorld
                   {| Obj.own := {[ "about" := aboutRoute ]}; Obj.proto := None |}
                   userRoute None None _ _ _ eq_refl eq_refl _ eq_refl)).
  - cbn. tauto.
  - vm_compute. reflexivity.
  - vm_compute. reflexivity.
  - vm_compute. reflexivity.
Defined.

(** ** What the generators do not read *)

(** X21. The outcome of the validating generators does not depend on what
    the console and the registries hold: in any two worlds the registry's
    [generateUrl], the deprecated one and [Link] complete in the same way,
    with the same URL or the same error, also for a bare path that [Link]
    looks up in the registry. A URL they return is the one the first
    [generateUrl] of the route builder builds from the bare template, so the
    schemas of a route decide whether a URL comes out, never which. *)
Theorem generators_ignore_the_world
    (route : RouteDefinition) (target : RouteDefinition + string)
    (options : Options) (w1 w2 : World) :
  fst (Registry.generateUrl target options w1)
  = fst (Registry.generateUrl target options w2)
  /\ fst (RouteBuilderRegistry.generateUrl route options w1)
     = fst (RouteBuilderRegistry.generateUrl route options w2)
  /\ fst (LinkComponent.Link target (opt_params options) (opt_query options) w1)
     = fst (LinkComponent.Link target (opt_params options) (opt_query options) w2)
  /\ (forall url,
        fst (Registry.generateUrl target options w1) = Normal url ->
        url = RouteBuilder.generateUrl
                {| path := template target; params := None; query := None |} options)
  /\ (forall url,
        fst (LinkComponent.Link target (opt_params options) (opt_query options) w1)
        = Normal url ->
        url = RouteBuilder.generateUrl
                {| path := template target; params := None; query := None |} options).
Proof.
  split; [|split; [|split; [|split]]].
  - destruct target, options; run_monad; split_cases; reflexivity.
  - destruct options; run_monad; split_cases; reflexivity.
  - destruct target, options; unfold LinkComponent.Link; run_monad; split_cases;
      reflexivity.
  - destruct target, options; run_monad; split_cases;
      unfold fst; intros url [= <-]; reflexivity.
  - destruct target, options; unfold LinkComponent.Link; run_monad; split_cases;
      unfold fst; intros url [= <-]; reflexivity.
Qed.
